(** * MediaApp: the file-serving API of the media server

    A shallow embedding of the Express application that lists a media
    directory, streams files with HTTP range support and sends files as
    attachments, together with the properties of its path containment
    check, its range handling, its listing order and its size formatter.

    The three request handlers, the last route and [formatFileSize] are
    translated from the server source.  The platform functions they call
    (Node's [path] module on a POSIX host, [String.prototype] methods,
    [parseInt], [fs.createReadStream], Express's [res.download] and
    [res.sendFile] with the [send] and [range-parser] packages behind
    them) are modelled from their behaviour; the two lookup tables that
    live in third-party packages ([mime.lookup], [contentDisposition])
    and the host's collation ([localeCompare]) are parameters of the
    development. *)

From Stdlib Require Import ZArith List Bool Lia.
From Stdlib Require Import Ascii String.
From Stdlib Require Strings.Byte.
From Stdlib Require Import DecimalString DecimalPos.
From Stdlib Require Import Sorted Permutation.
Import ListNotations.

Open Scope string_scope.
Open Scope Z_scope.

(* ================================================================== *)
(** ** JavaScript values and string methods *)
(* ================================================================== *)

Module JS.

(** A JavaScript number as the handlers see it.  Every number is a
    double; the ones that occur are [NaN], the two infinities and doubles
    with an integer value. *)
Inductive number : Type :=
| NaN
| Int (z : Z)
| Infinity
| NegInfinity.

(** The double nearest to an integer, ties to the even significand.  An
    integer of magnitude up to 2^53 is a double; a larger one keeps its
    53 leading bits, and one that rounds to 2^1024 or more is infinite. *)
Definition of_Z (z : Z) : number :=
  let a := Z.abs z in
  if a <=? 2 ^ 53 then Int z
  else
    let sh := Z.log2 a - 52 in
    let q := a / 2 ^ sh in
    let r := a mod 2 ^ sh in
    let half := 2 ^ (sh - 1) in
    let m := if (half <? r) || ((r =? half) && Z.odd q) then q + 1 else q in
    let v := m * 2 ^ sh in
    if 2 ^ 1024 <=? v then (if z <? 0 then NegInfinity else Infinity)
    else Int (Z.sgn z * v).

Definition sub (a b : number) : number :=
  match a, b with
  | NaN, _ | _, NaN => NaN
  | Int x, Int y => of_Z (x - y)
  | Infinity, Infinity | NegInfinity, NegInfinity => NaN
  | Infinity, _ | _, NegInfinity => Infinity
  | NegInfinity, _ | _, Infinity => NegInfinity
  end.

Definition add (a b : number) : number :=
  match a, b with
  | NaN, _ | _, NaN => NaN
  | Int x, Int y => of_Z (x + y)
  | Infinity, NegInfinity | NegInfinity, Infinity => NaN
  | Infinity, _ | _, Infinity => Infinity
  | NegInfinity, _ | _, NegInfinity => NegInfinity
  end.

(** [a > b] and [a < b]; a comparison with [NaN] is false. *)
Definition gt (a b : number) : bool :=
  match a, b with
  | NaN, _ | _, NaN => false
  | Int x, Int y => y <? x
  | Infinity, Infinity | NegInfinity, _ | _, Infinity => false
  | Infinity, _ | _, NegInfinity => true
  end.

Definition lt (a b : number) : bool := gt b a.

Definition isNaN (a : number) : bool :=
  match a with NaN => true | _ => false end.

(** Decimal rendering of an integer, as in a template literal. *)
Definition show_Z (z : Z) : string := NilEmpty.string_of_int (Z.to_int z).

(** A number in a template literal.  An integer is printed in plain
    decimal digits as long as its magnitude is below 10^21, which covers
    every integer the handlers print. *)
Definition show (n : number) : string :=
  match n with
  | NaN => "NaN"
  | Int z => show_Z z
  | Infinity => "Infinity"
  | NegInfinity => "-Infinity"
  end.

(** [s.startsWith(p)] *)
Definition startsWith (s p : string) : bool := String.prefix p s.

(** An empty string is falsy, every other string is truthy. *)
Definition truthy (s : string) : bool := negb (s =? "")%string.

Fixpoint drop (n : nat) (s : string) : string :=
  match n, s with
  | O, _ => s
  | S _, EmptyString => EmptyString
  | S n', String _ s' => drop n' s'
  end.

(** [s.replace(/pat/, rep)] for a literal pattern without the global flag:
    only the leftmost occurrence is replaced. *)
Fixpoint replace_first (pat rep s : string) : string :=
  if String.prefix pat s then rep ++ drop (String.length pat) s
  else match s with
       | EmptyString => EmptyString
       | String c s' => String c (replace_first pat rep s')
       end.

(** [s.split(sep)] for a one-character separator: always at least one
    piece, empty pieces are kept. *)
Fixpoint split (sep : ascii) (s : string) : list string :=
  match s with
  | EmptyString => [EmptyString]
  | String c s' =>
      if Ascii.eqb c sep then EmptyString :: split sep s'
      else match split sep s' with
           | [] => [String c EmptyString]
           | piece :: pieces => String c piece :: pieces
           end
  end.

(** White space skipped by [parseInt]: TAB, LF, VT, FF, CR, SP and the
    no-break space of Latin-1. *)
Definition is_space (c : ascii) : bool :=
  let n := nat_of_ascii c in
  (Nat.leb 9 n && Nat.leb n 13) || Nat.eqb n 32 || Nat.eqb n 160.

Definition digit_of (c : ascii) : option Z :=
  let n := Z.of_nat (nat_of_ascii c) in
  if (48 <=? n) && (n <=? 57) then Some (n - 48) else None.

Fixpoint trim_start (s : string) : string :=
  match s with
  | String c s' => if is_space c then trim_start s' else s
  | EmptyString => EmptyString
  end.

Fixpoint parse_digits (acc : Z) (s : string) : Z :=
  match s with
  | String c s' =>
      match digit_of c with
      | Some d => parse_digits (acc * 10 + d) s'
      | None => acc
      end
  | EmptyString => acc
  end.

Definition starts_with_digit (s : string) : bool :=
  match s with
  | String c _ => match digit_of c with Some _ => true | None => false end
  | EmptyString => false
  end.

(** [parseInt(s, 10)]: leading white space, an optional sign, then the
    longest run of decimal digits; [NaN] when that run is empty, and
    otherwise the double nearest to the value of the run, which is
    infinite for a run of some 310 digits. *)
Definition parseInt (s : string) : number :=
  let s1 := trim_start s in
  let '(sign, s2) :=
    match s1 with
    | String "-" r => (-1, r)
    | String "+" r => (1, r)
    | _ => (1, s1)
    end in
  if starts_with_digit s2 then of_Z (sign * parse_digits 0 s2) else NaN.

End JS.

(* ================================================================== *)
(** ** Node's [path] module on a POSIX host *)
(* ================================================================== *)

Module Path.

Definition sep : ascii := "/"%char.

Definition isAbsolute (p : string) : bool :=
  match p with
  | String c _ => Ascii.eqb c sep
  | EmptyString => false
  end.

Fixpoint ends_with_sep (p : string) : bool :=
  match p with
  | EmptyString => false
  | String c EmptyString => Ascii.eqb c sep
  | String _ p' => ends_with_sep p'
  end.

(** [normalizeString]: resolves [.] and [..] segment by segment.  [acc]
    is the stack of kept segments, innermost first.  A [..] pops the last
    kept segment unless that is itself a [..] or the stack is empty; then
    it is kept when the path is relative and dropped when it is absolute. *)
Fixpoint normalize_segments (allowAboveRoot : bool)
    (acc segs : list string) : list string :=
  match segs with
  | [] => rev acc
  | seg :: rest =>
      if (seg =? "")%string || (seg =? ".")%string then
        normalize_segments allowAboveRoot acc rest
      else if (seg =? "..")%string then
        match acc with
        | top :: acc' =>
            if (top =? "..")%string then
              normalize_segments allowAboveRoot
                (if allowAboveRoot then ".." :: acc else acc) rest
            else normalize_segments allowAboveRoot acc' rest
        | [] =>
            normalize_segments allowAboveRoot
              (if allowAboveRoot then [".."] else []) rest
        end
      else normalize_segments allowAboveRoot (seg :: acc) rest
  end.

Definition normalizeString (p : string) (allowAboveRoot : bool) : string :=
  String.concat "/" (normalize_segments allowAboveRoot [] (JS.split sep p)).

(** [path.normalize] *)
Definition normalize (p : string) : string :=
  if (p =? "")%string then "."
  else
    let isAbs := isAbsolute p in
    let trailingSeparator := ends_with_sep p in
    let q := normalizeString p (negb isAbs) in
    if (q =? "")%string then
      if isAbs then "/" else if trailingSeparator then "./" else "."
    else
      let q' := if trailingSeparator then q ++ "/" else q in
      if isAbs then "/" ++ q' else q'.

(** The arguments of [path.join] that are not empty, glued with [/]. *)
Fixpoint glue (args : list string) : option string :=
  match args with
  | [] => None
  | a :: rest =>
      if (a =? "")%string then glue rest
      else match glue rest with
           | None => Some a
           | Some r => Some (a ++ "/" ++ r)
           end
  end.

(** [path.join(...args)] *)
Definition join (args : list string) : string :=
  match glue args with
  | None => "."
  | Some joined => normalize joined
  end.

(** The loop of [path.resolve]: arguments are taken from the right, the
    working directory last, until an absolute one has been prepended. *)
Fixpoint resolve_loop (paths : list string) (resolvedPath : string)
    : string * bool :=
  match paths with
  | [] => (resolvedPath, false)
  | p :: rest =>
      if (p =? "")%string then resolve_loop rest resolvedPath
      else
        let r := p ++ "/" ++ resolvedPath in
        if isAbsolute p then (r, true) else resolve_loop rest r
  end.

(** [path.resolve(...args)] in a process whose working directory is
    [cwd]. *)
Definition resolve (cwd : string) (args : list string) : string :=
  let '(p, resolvedAbsolute) := resolve_loop (rev args ++ [cwd]) "" in
  let q := normalizeString p (negb resolvedAbsolute) in
  if resolvedAbsolute then "/" ++ q
  else if (q =? "")%string then "." else q.

(** [path.basename(p)]: the last segment, trailing separators ignored. *)
Definition basename (p : string) : string :=
  last (filter JS.truthy (JS.split sep p)) "".

End Path.

(* ================================================================== *)
(** ** The file system the server reads *)
(* ================================================================== *)

Module Fs.

Inductive error_code : Type :=
| ENOENT
| ENOTDIR
| EISDIR
| EACCES
| ERR_OUT_OF_RANGE.

(** A call that returns or throws. *)
Inductive result (A : Type) : Type :=
| Ok (a : A)
| Throw (e : error_code).
Arguments Ok {A} a.
Arguments Throw {A} e.

Definition bind {A B : Type} (r : result A) (f : A -> result B) : result B :=
  match r with
  | Ok a => f a
  | Throw e => Throw e
  end.

Fixpoint mapM {A B : Type} (f : A -> result B) (l : list A)
    : result (list B) :=
  match l with
  | [] => Ok []
  | x :: xs =>
      bind (f x) (fun y => bind (mapM f xs) (fun ys => Ok (y :: ys)))
  end.

(** What a path names: a regular file with its bytes, or a directory with
    the names of its children and the size its own stat reports.  [mtime]
    is the modification time as [toISOString] prints it. *)
Inductive node : Type :=
| File (content : list Byte.byte) (mtime : string)
| Directory (children : list string) (dsize : Z) (mtime : string).

(** The file system is a read-only lookup by path string; a lookup that
    fails carries the code of the error a call on that path throws. *)
Definition filesystem : Type := string -> result node.

Record Stats : Type := mkStats {
  isDirectory : bool;
  size : Z;
  mtime : string
}.

Definition stats_of (n : node) : Stats :=
  match n with
  | File content t => mkStats false (Z.of_nat (List.length content)) t
  | Directory _ dsize t => mkStats true dsize t
  end.

(** [fs.stat] and [fs.statSync] *)
Definition stat (fs : filesystem) (p : string) : result Stats :=
  bind (fs p) (fun n => Ok (stats_of n)).

(** [fs.readdir] *)
Definition readdir (fs : filesystem) (p : string) : result (list string) :=
  bind (fs p) (fun n =>
    match n with
    | Directory children _ _ => Ok children
    | File _ _ => Throw ENOTDIR
    end).

(** [fs.existsSync]: false on any failure. *)
Definition existsSync (fs : filesystem) (p : string) : bool :=
  match fs p with
  | Ok _ => true
  | Throw _ => false
  end.

Definition MAX_SAFE_INTEGER : Z := 2 ^ 53 - 1.

Definition valid_offset (n : JS.number) : bool :=
  match n with
  | JS.Int z => (0 <=? z) && (z <=? MAX_SAFE_INTEGER)
  | _ => false
  end.

(** A read stream that has been created: the path it will read and, if
    they were given, the first offset and the last one, both inclusive;
    no last offset stands for an [end] of [Infinity], which reads to the
    end of the file. *)
Record ReadStream : Type := mkReadStream {
  rs_path : string;
  rs_window : option (Z * option Z)
}.

(** The option check of a read stream: [start] is an integer in
    [0, MAX_SAFE_INTEGER]; [end] is [Infinity], which is taken as it is,
    or an integer in the same interval that [start] does not exceed. *)
Definition accepts (start end_ : JS.number) : bool :=
  match start with
  | JS.Int s =>
      valid_offset start &&
      match end_ with
      | JS.Infinity => true
      | JS.Int e => valid_offset end_ && (s <=? e)
      | _ => false
      end
  | _ => false
  end.

(** [fs.createReadStream(path, { start, end })].  The constructor checks
    its options before anything is opened and throws when they are not
    accepted.  Without options it never throws. *)
Definition createReadStream (p : string)
    (options : option (JS.number * JS.number)) : result ReadStream :=
  match options with
  | None => Ok (mkReadStream p None)
  | Some (start, end_) =>
      if accepts start end_ then
        match start, end_ with
        | JS.Int s, JS.Int e => Ok (mkReadStream p (Some (s, Some e)))
        | JS.Int s, _ => Ok (mkReadStream p (Some (s, None)))
        | _, _ => Throw ERR_OUT_OF_RANGE
        end
      else Throw ERR_OUT_OF_RANGE
  end.

(** The bytes of [content] at offsets [s] to [e], both inclusive; the
    window is cut at the end of the file. *)
Definition window (content : list Byte.byte) (s e : Z) : list Byte.byte :=
  firstn (Z.to_nat (e - s + 1)) (skipn (Z.to_nat s) content).

(** The bytes of [content] from offset [s] to the end of the file. *)
Definition tail (content : list Byte.byte) (s : Z) : list Byte.byte :=
  skipn (Z.to_nat s) content.

(** What reading a stream to its end yields.  A directory cannot be read:
    the stream fails with [EISDIR] once it is opened. *)
Definition read (fs : filesystem) (rs : ReadStream)
    : result (list Byte.byte) :=
  bind (fs (rs_path rs)) (fun n =>
    match n with
    | File content _ =>
        match rs_window rs with
        | None => Ok content
        | Some (s, Some e) => Ok (window content s e)
        | Some (s, None) => Ok (tail content s)
        end
    | Directory _ _ _ => Throw EISDIR
    end).

End Fs.

(* ================================================================== *)
(** ** HTTP responses *)
(* ================================================================== *)

Unset Elimination Schemes.
Inductive json : Type :=
| JNull
| JString (s : string)
| JArray (items : list json)
| JObject (fields : list (string * json)).
Set Elimination Schemes.

(** What a handler hands to the response: a JSON document ([res.json]),
    a read stream piped into it ([file.pipe(res)]), a file sent whole
    by [res.download] or [res.sendFile], or the page Express writes for a
    request that no route has answered. *)
Inductive body : Type :=
| Json (j : json)
| Piped (file : Fs.ReadStream)
| Download (path : string)
| NoRoute.

Record Response : Type := mkResponse {
  status : Z;
  headers : list (string * string);
  payload : body
}.

Fixpoint lookup_header (name : string) (hs : list (string * string))
    : option string :=
  match hs with
  | [] => None
  | (k, v) :: rest =>
      if (k =? name)%string then Some v else lookup_header name rest
  end.

Definition header (name : string) (r : Response) : option string :=
  lookup_header name (headers r).

(** The names of the top-level members of a JSON object. *)
Definition keys (j : json) : list string :=
  match j with
  | JObject fields => map fst fields
  | _ => []
  end.

Definition member (name : string) (j : json) : option json :=
  match j with
  | JObject fields =>
      match find (fun kv => (fst kv =? name)%string) fields with
      | Some kv => Some (snd kv)
      | None => None
      end
  | _ => None
  end.

(** [res.status(code).json({ error: message })] *)
Definition error_response (code : Z) (message : string) : Response :=
  mkResponse code [] (Json (JObject [("error", JString message)])).

(** The bytes a client receives as the body of a streamed or downloaded
    response, when the transfer succeeds. *)
Definition delivered (fs : Fs.filesystem) (r : Response)
    : option (list Byte.byte) :=
  match payload r with
  | Json _ => None
  | Piped file =>
      match Fs.read fs file with
      | Fs.Ok bytes => Some bytes
      | Fs.Throw _ => None
      end
  | Download p =>
      match Fs.read fs (Fs.mkReadStream p None) with
      | Fs.Ok bytes => Some bytes
      | Fs.Throw _ => None
      end
  | NoRoute => None
  end.

(* ================================================================== *)
(** ** The server *)
(* ================================================================== *)

(** One element of a listing, as the browse handler builds it. *)
Record Item : Type := mkItem {
  name : string;
  type : string;
  path : string;
  size : option string;
  modified : string
}.

Definition item_json (it : Item) : json :=
  JObject [("name", JString (name it));
           ("type", JString (type it));
           ("path", JString (path it));
           ("size", match size it with
                    | Some s => JString s
                    | None => JNull
                    end);
           ("modified", JString (modified it))].

(** [Array.prototype.sort(compare)]: the sort is stable, and with a
    consistent comparator its result is the stable insertion of the
    elements from the right. *)
Fixpoint insert {A : Type} (compare : A -> A -> Z) (x : A) (l : list A)
    : list A :=
  match l with
  | [] => [x]
  | y :: l' =>
      if compare x y <=? 0 then x :: l else y :: insert compare x l'
  end.

Fixpoint sort {A : Type} (compare : A -> A -> Z) (l : list A) : list A :=
  match l with
  | [] => []
  | x :: l' => insert compare x (sort compare l')
  end.

(** Size units of [formatFileSize]. *)
Definition k : Z := 1024.
Definition sizes : list string := ["B"; "KB"; "MB"; "GB"; "TB"].

(** [Math.floor(Math.log(bytes) / Math.log(k))] for a positive integer:
    the integer logarithm to base 1024.  The floating-point quotient
    floors to this value as long as [bytes] stays a relative distance of
    about 2^-40 below the next power of 1024, which covers every count up
    to [log_exact]. *)
Definition floor_log_k (bytes : Z) : Z := Z.log2 bytes / 10.

Definition log_exact : Z := k ^ 5 - k.

(** [(num / den).toFixed(1)] as a count of tenths: the integer [n] with
    [n / 10] nearest to the quotient, the larger one on a tie.  The
    quotient of a count below 2^53 by a power of two is exact in a
    double. *)
Definition toFixed1 (num den : Z) : Z := (20 * num + den) / (2 * den).

(** [parseFloat(t) + ''] for the text [t] of [n] tenths: converting back
    to a number and printing it drops a fractional part that is zero. *)
Definition show_tenths (n : Z) : string :=
  if n mod 10 =? 0 then JS.show_Z (n / 10)
  else JS.show_Z (n / 10) ++ "." ++ JS.show_Z (n mod 10).

(** [sizes[i]]; an index past the end yields [undefined], which the
    concatenation prints. *)
Definition unit_name (i : Z) : string :=
  nth (Z.to_nat i) sizes "undefined".

Definition formatFileSize (bytes : Z) : string :=
  if bytes =? 0 then "0 B"
  else
    let i := floor_log_k bytes in
    show_tenths (toFixed1 bytes (k ^ i)) ++ " " ++ unit_name i.

(** [process.env.MEDIA_ROOT || './media'] *)
Definition media_root (env_MEDIA_ROOT : option string) : string :=
  match env_MEDIA_ROOT with
  | Some r => if JS.truthy r then r else "./media"
  | None => "./media"
  end.

(** The error-handling middleware registered after the routes: Express
    passes it whatever a route handler throws synchronously and every
    error a file transfer reports.  The model records the status and the
    body it writes; header fields that were set on the response before
    the error stay on it and are not listed here. *)
Definition error_middleware : Response :=
  error_response 500 "Internal server error".

(** Express's answer to a request that no route is left for. *)
Definition no_route : Response := mkResponse 404 [] NoRoute.

(* ------------------------------------------------------------------ *)
(** *** File transfer by [res.sendFile]: the [send] package *)
(* ------------------------------------------------------------------ *)

(** A path segment that [send] takes for a dot file. *)
Definition dotfile (segment : string) : bool :=
  match segment with
  | String "." (String _ _) => true
  | _ => false
  end.

(** The [range-parser] package.  One element of a range set, read
    against a representation of [size] bytes: the window it selects,
    cut at the last byte, or nothing when it is invalid or cannot be
    satisfied. *)
Definition parse_range_spec (size : Z) (spec : string) : option (Z * Z) :=
  let range := JS.split "-"%char spec in
  let start := JS.parseInt (nth 0 range "") in
  let end_ :=
    match nth_error range 1 with
    | Some part => JS.parseInt part
    | None => JS.NaN
    end in
  let last := JS.sub (JS.Int size) (JS.Int 1) in
  let '(start, end_) :=
    if JS.isNaN start then (JS.sub (JS.Int size) end_, last)
    else if JS.isNaN end_ then (start, last)
    else (start, end_) in
  let end_ := if JS.gt end_ last then last else end_ in
  match start, end_ with
  | JS.Int s, JS.Int e => if (e <? s) || (s <? 0) then None else Some (s, e)
  | _, _ => None
  end.

Fixpoint parse_range_specs (size : Z) (specs : list string)
    : list (Z * Z) :=
  match specs with
  | [] => []
  | spec :: rest =>
      match parse_range_spec size spec with
      | Some range => range :: parse_range_specs size rest
      | None => parse_range_specs size rest
      end
  end.

(** A range with its position in the header. *)
Record IndexedRange : Type := mkIndexedRange {
  range_start : Z;
  range_end : Z;
  range_index : Z
}.

Fixpoint with_index (i : Z) (ranges : list (Z * Z)) : list IndexedRange :=
  match ranges with
  | [] => []
  | (s, e) :: rest => mkIndexedRange s e i :: with_index (i + 1) rest
  end.

(** One step of the merge of [combineRanges]; [acc] holds the combined
    ranges so far, the current one first. *)
Definition combine_step (acc : list IndexedRange) (range : IndexedRange)
    : list IndexedRange :=
  match acc with
  | [] => [range]
  | current :: done =>
      if range_end current + 1 <? range_start range then range :: acc
      else if range_end current <? range_end range then
        mkIndexedRange (range_start current) (range_end range)
          (Z.min (range_index current) (range_index range)) :: done
      else acc
  end.

(** [combineRanges]: overlapping and adjacent ranges are merged, and the
    result is put back in the order of the header. *)
Definition combineRanges (ranges : list (Z * Z)) : list (Z * Z) :=
  let ordered :=
    sort (fun a b => range_start a - range_start b) (with_index 0 ranges) in
  let combined := fold_left combine_step ordered [] in
  map (fun r => (range_start r, range_end r))
    (sort (fun a b => range_index a - range_index b) (rev combined)).

Inductive parsed_ranges : Type :=
| Malformed
| Unsatisfiable
| Ranges (ranges : list (Z * Z)).

(** The text after the first [=], if there is one. *)
Fixpoint after_equals (s : string) : option string :=
  match s with
  | EmptyString => None
  | String c s' => if Ascii.eqb c "="%char then Some s' else after_equals s'
  end.

(** [parseRange(size, header, { combine: true })] *)
Definition parseRange (size : Z) (header : string) : parsed_ranges :=
  match after_equals header with
  | None => Malformed
  | Some set =>
      match parse_range_specs size (JS.split ","%char set) with
      | [] => Unsatisfiable
      | ranges => Ranges (combineRanges ranges)
      end
  end.

Fixpoint skip_blanks (s : string) : string :=
  match s with
  | String " " s' => skip_blanks s'
  | _ => s
  end.

(** The test [send] makes before it parses a range header: blanks, then
    [bytes=]. *)
Definition bytes_range (header : string) : bool :=
  JS.startsWith (skip_blanks header) "bytes=".

(** What [send] writes for a regular file of [size] bytes.  [extra] are
    the header fields the caller adds; of the fields [send] sets itself
    the model lists [Content-Range].  A single satisfiable range is
    answered 206 with that part of the file; a range that cannot be
    satisfied is reported as an error, which reaches the error
    middleware; every other request gets the whole file.  The request is
    taken to carry no conditional header ([If-Match] and the like). *)
Definition send (p : string) (size : Z) (extra : list (string * string))
    (range : option string) : Response :=
  let whole := mkResponse 200 extra (Download p) in
  match range with
  | None => whole
  | Some header =>
      if bytes_range header then
        match parseRange size header with
        | Unsatisfiable => error_middleware
        | Ranges [(s, e)] =>
            mkResponse 206
              (extra ++
               [("Content-Range",
                 ("bytes " ++ JS.show_Z s ++ "-" ++ JS.show_Z e
                    ++ "/" ++ JS.show_Z size)%string)])%list
              (Piped (Fs.mkReadStream p (Some (s, Some e))))
        | _ => whole
        end
      else whole
  end.

(* ------------------------------------------------------------------ *)
(** *** The routes *)
(* ------------------------------------------------------------------ *)

Section Server.

(** The environment of the process. *)
Variable env_MEDIA_ROOT : option string.
Variable cwd : string.
Variable fs : Fs.filesystem.

(** [mime.lookup]: the media type of a file name by its extension, none
    when the extension is unknown. *)
Variable mime_lookup : string -> option string.

(** [a.localeCompare(b)]: negative, zero or positive. *)
Variable localeCompare : string -> string -> Z.

(** [contentDisposition(filename)]: the value of an attachment's
    [Content-Disposition] header for a file name. *)
Variable contentDisposition : string -> string.

(** [__dirname]: the directory of the server script, an absolute path. *)
Variable dirname : string.

Definition MEDIA_ROOT : string := media_root env_MEDIA_ROOT.

(** The containment check shared by the three handlers. *)
Definition fullPath_of (requestPath : string) : string :=
  Path.join [MEDIA_ROOT; requestPath].

Definition access_denied (fullPath : string) : bool :=
  negb (JS.startsWith fullPath (Path.resolve cwd [MEDIA_ROOT])).

(** [mtime.toISOString().split('T')[0]] *)
Definition date_of (mtime : string) : string :=
  hd "" (JS.split "T"%char mtime).

Definition file_type (item : string) : string :=
  match mime_lookup item with
  | Some mimeType =>
      if JS.startsWith mimeType "video/" then "video"
      else if JS.startsWith mimeType "image/" then "image"
      else if JS.startsWith mimeType "audio/" then "audio"
      else "file"
  | None => "file"
  end.

(** The callback mapped over the names returned by [readdir]. *)
Definition describe (fullPath requestPath item : string) : Fs.result Item :=
  let itemPath := Path.join [fullPath; item] in
  Fs.bind (Fs.stat fs itemPath) (fun itemStats =>
    let relativePath := Path.join ["/"; requestPath; item] in
    if Fs.isDirectory itemStats then
      Fs.Ok (mkItem item "folder" relativePath None
               (date_of (Fs.mtime itemStats)))
    else
      Fs.Ok (mkItem item (file_type item) relativePath
               (Some (formatFileSize (Fs.size itemStats)))
               (date_of (Fs.mtime itemStats)))).

(** The comparator of the listing: folders first, then by name. *)
Definition compare_items (a b : Item) : Z :=
  if (type a =? "folder")%string && negb (type b =? "folder")%string then -1
  else if negb (type a =? "folder")%string && (type b =? "folder")%string
  then 1
  else localeCompare (name a) (name b).

(** The body of the [try] block of the browse handler, after the
    containment check.  The stats of the children are awaited together;
    when several fail, the model reports the first in directory order. *)
Definition browse_try (fullPath requestPath : string) : Fs.result Response :=
  Fs.bind (Fs.stat fs fullPath) (fun stats =>
    if negb (Fs.isDirectory stats) then
      Fs.Ok (error_response 400 "Path is not a directory")
    else
      Fs.bind (Fs.readdir fs fullPath) (fun items =>
      Fs.bind (Fs.mapM (describe fullPath requestPath) items)
        (fun itemsWithStats =>
          Fs.Ok (mkResponse 200 []
            (Json (JObject
              [("current_path",
                JString (if JS.truthy requestPath then requestPath else "/"));
               ("items",
                JArray (map item_json
                          (sort compare_items itemsWithStats)))])))))).

(** [GET /api/browse/*]; [requestPath] is [req.params[0] || '']. *)
Definition browse (requestPath : string) : Response :=
  let fullPath := fullPath_of requestPath in
  if access_denied fullPath then error_response 403 "Access denied"
  else
    match browse_try fullPath requestPath with
    | Fs.Ok response => response
    | Fs.Throw Fs.ENOENT => error_response 404 "Directory not found"
    | Fs.Throw _ => error_response 500 "Server error"
    end.

(** [mime.lookup(fullPath) || 'application/octet-stream']: the value the
    handler passes to [res.set] (Express adds a [charset] parameter to
    a text type when it stores the field). *)
Definition content_type (fullPath : string) : string :=
  match mime_lookup fullPath with
  | Some t => t
  | None => "application/octet-stream"
  end.

(** The parsed bounds of a range header for a file of [fileSize] bytes. *)
Definition range_bounds (range : string) (fileSize : Z)
    : JS.number * JS.number :=
  let parts := JS.split "-"%char (JS.replace_first "bytes=" "" range) in
  let start := JS.parseInt (nth 0 parts "") in
  let end_ :=
    match nth_error parts 1 with
    | Some part =>
        if JS.truthy part then JS.parseInt part else JS.Int (fileSize - 1)
    | None => JS.Int (fileSize - 1)
    end in
  (start, end_).

(** The branch of the stream handler taken when a range header is
    present: the read stream is created first, then the status line and
    the headers are written. *)
Definition stream_range (fullPath mimeType : string) (fileSize : Z)
    (range : string) : Response :=
  let '(start, end_) := range_bounds range fileSize in
  let chunksize := JS.add (JS.sub end_ start) (JS.Int 1) in
  match Fs.createReadStream fullPath (Some (start, end_)) with
  | Fs.Throw _ => error_middleware
  | Fs.Ok file =>
      mkResponse 206
        [("Content-Type", mimeType);
         ("Content-Range",
          "bytes " ++ JS.show start ++ "-" ++ JS.show end_
            ++ "/" ++ JS.show_Z fileSize);
         ("Accept-Ranges", "bytes");
         ("Content-Length", JS.show chunksize)]
        (Piped file)
  end.

(** The other branch: the entire file. *)
Definition stream_whole (fullPath mimeType : string) (fileSize : Z)
    : Response :=
  match Fs.createReadStream fullPath None with
  | Fs.Throw _ => error_middleware
  | Fs.Ok file =>
      mkResponse 200
        [("Content-Type", mimeType);
         ("Content-Length", JS.show_Z fileSize);
         ("Accept-Ranges", "bytes")]
        (Piped file)
  end.

(** [GET /api/stream/*]; [range] is [req.headers.range], absent when the
    request has no such header. *)
Definition stream (requestPath : string) (range : option string) : Response :=
  let fullPath := fullPath_of requestPath in
  if access_denied fullPath then error_response 403 "Access denied"
  else if negb (Fs.existsSync fs fullPath) then
    error_response 404 "File not found"
  else
    match Fs.stat fs fullPath with
    | Fs.Throw _ => error_middleware
    | Fs.Ok stat =>
        let fileSize := Fs.size stat in
        let mimeType := content_type fullPath in
        match range with
        | Some r =>
            if JS.truthy r then stream_range fullPath mimeType fileSize r
            else stream_whole fullPath mimeType fileSize
        | None => stream_whole fullPath mimeType fileSize
        end
    end.

(** [res.sendFile(path, { headers })] for an absolute [path], with the
    other options at their defaults.  A path whose last segment is a dot
    file is not served, and neither is one that cannot be looked up:
    both are errors of the transfer and reach the error middleware.  A
    path with a trailing separator, which only the root has here, is
    answered with the [index.html] in it.  For a directory nothing is
    sent and the request falls through to [next], the routes registered
    after the present one. *)
Definition sendFile (p : string) (extra : list (string * string))
    (range : option string) (next : Response) : Response :=
  if dotfile (Path.basename p) then error_middleware
  else if Path.ends_with_sep p then
    let index := Path.join [p; "index.html"] in
    match fs index with
    | Fs.Ok (Fs.File content _) =>
        send index (Z.of_nat (List.length content)) extra range
    | _ => error_middleware
    end
  else
    match fs p with
    | Fs.Throw _ => error_middleware
    | Fs.Ok (Fs.Directory _ _ _) => next
    | Fs.Ok (Fs.File content _) =>
        send p (Z.of_nat (List.length content)) extra range
    end.

(** [path.join(__dirname, 'build')] *)
Definition BUILD_PATH : string := Path.join [dirname; "build"].

(** [GET *], the last route: the page of the client application. *)
Definition catch_all (range : option string) : Response :=
  sendFile (Path.join [BUILD_PATH; "index.html"]) [] range no_route.

(** [res.download(path, filename)]: the resolved path is sent by
    [res.sendFile] with a [Content-Disposition] header built from
    [filename].  The only route after the download route that matches
    its requests is the last one. *)
Definition res_download (p filename : string) (range : option string)
    : Response :=
  sendFile (Path.resolve cwd [p])
    [("Content-Disposition", contentDisposition filename)]
    range (catch_all range).

(** [GET /api/download/*]; [requestPath] is [req.params[0]] and [range]
    the request's [Range] header, which the handler does not read but
    the transfer does. *)
Definition download (requestPath : string) (range : option string)
    : Response :=
  let fullPath := fullPath_of requestPath in
  if access_denied fullPath then error_response 403 "Access denied"
  else if negb (Fs.existsSync fs fullPath) then
    error_response 404 "File not found"
  else
    let filename := Path.basename fullPath in
    res_download fullPath filename range.

End Server.

(* ================================================================== *)
(** ** A sample deployment *)
(* ================================================================== *)

Module Sample.

(** Media type by the text after the last dot, for the extensions the
    sample uses. *)
Definition mime_lookup (file : string) : option string :=
  match rev (JS.split "."%char file) with
  | ext :: _ :: _ =>
      if (ext =? "mp4")%string then Some "video/mp4"
      else if (ext =? "mp3")%string then Some "audio/mpeg"
      else if (ext =? "jpg")%string then Some "image/jpeg"
      else if (ext =? "txt")%string then Some "text/plain"
      else None
  | _ => None
  end.

(** A collation that ignores the case of ASCII letters. *)
Definition fold_case (c : ascii) : Z :=
  let n := Z.of_nat (nat_of_ascii c) in
  if (65 <=? n) && (n <=? 90) then n + 32 else n.

Fixpoint localeCompare (a b : string) : Z :=
  match a, b with
  | EmptyString, EmptyString => 0
  | EmptyString, String _ _ => -1
  | String _ _, EmptyString => 1
  | String x a', String y b' =>
      if fold_case x <? fold_case y then -1
      else if fold_case y <? fold_case x then 1
      else localeCompare a' b'
  end.

(** The header value for a file name of letters, digits and dots: the
    name between double quotes. *)
Definition contentDisposition (filename : string) : string :=
  "attachment; filename=" ++ String (ascii_of_nat 34) filename
    ++ String (ascii_of_nat 34) "".

Definition stamp : string := "2024-05-06T07:08:09.000Z".

(** A clip of 1000 bytes. *)
Definition clip : list Byte.byte :=
  repeat Byte.x2a 100 ++ repeat Byte.x00 900.

Definition secret : list Byte.byte := [Byte.x73; Byte.x33; Byte.x63].

(** The media root [/media] holds a clip and the three entries of the
    listing example in a directory [mix]; next to the root lies a
    directory [/media-evil] that is not part of it. *)
Definition disk : Fs.filesystem := fun p =>
  if (p =? "/media")%string then
    Fs.Ok (Fs.Directory ["x.mp4"; "mix"] 4096 stamp)
  else if (p =? "/media/x.mp4")%string then Fs.Ok (Fs.File clip stamp)
  else if (p =? "/media/mix")%string then
    Fs.Ok (Fs.Directory ["b.mp4"; "A"; "a.txt"] 4096 stamp)
  else if (p =? "/media/mix/b.mp4")%string then
    Fs.Ok (Fs.File (repeat Byte.x00 1536) stamp)
  else if (p =? "/media/mix/A")%string then
    Fs.Ok (Fs.Directory [] 4096 stamp)
  else if (p =? "/media/mix/a.txt")%string then Fs.Ok (Fs.File [] stamp)
  else if (p =? "/media-evil")%string then
    Fs.Ok (Fs.Directory ["secret.txt"] 4096 stamp)
  else if (p =? "/media-evil/secret.txt")%string then
    Fs.Ok (Fs.File secret stamp)
  else Fs.Throw Fs.ENOENT.

Definition env : option string := Some "/media".
Definition cwd : string := "/srv/app".
Definition dirname : string := "/srv/app".

Definition browse : string -> Response :=
  browse env cwd disk mime_lookup localeCompare.
Definition stream : string -> option string -> Response :=
  stream env cwd disk mime_lookup.

(** A download request without a [Range] header. *)
Definition download : string -> Response :=
  fun requestPath =>
    download env cwd disk contentDisposition dirname requestPath None.

End Sample.

(** [p] is the root itself or lies below it. *)
Definition nested_under (root p : string) : bool :=
  (p =? root)%string || JS.startsWith p (root ++ "/").

(* ================================================================== *)
(** ** Auxiliary notions used in the proofs *)
(* ================================================================== *)

(** The value of a digit sequence read after the prefix value [acc]. *)
Fixpoint uint_value (acc : Z) (d : Decimal.uint) : Z :=
  match d with
  | Decimal.Nil => acc
  | Decimal.D0 l => uint_value (acc * 10 + 0) l
  | Decimal.D1 l => uint_value (acc * 10 + 1) l
  | Decimal.D2 l => uint_value (acc * 10 + 2) l
  | Decimal.D3 l => uint_value (acc * 10 + 3) l
  | Decimal.D4 l => uint_value (acc * 10 + 4) l
  | Decimal.D5 l => uint_value (acc * 10 + 5) l
  | Decimal.D6 l => uint_value (acc * 10 + 6) l
  | Decimal.D7 l => uint_value (acc * 10 + 7) l
  | Decimal.D8 l => uint_value (acc * 10 + 8) l
  | Decimal.D9 l => uint_value (acc * 10 + 9) l
  end.

Fixpoint all_digits (s : string) : bool :=
  match s with
  | EmptyString => true
  | String c s' =>
      match JS.digit_of c with Some _ => all_digits s' | None => false end
  end.

(** The character [c] does not occur in [s]. *)
Fixpoint free_of (c : ascii) (s : string) : bool :=
  match s with
  | EmptyString => true
  | String x s' => negb (Ascii.eqb x c) && free_of c s'
  end.

(** A segment that [normalizeString] keeps and that gluing cannot turn
    into a separator: not empty and not starting with one. *)
Definition proper_segment (s : string) : bool :=
  JS.truthy s && negb (Path.isAbsolute s).

Definition is_folder (it : Item) : bool := (type it =? "folder")%string.

(** The elements of the [items] array of a listing response, and the
    [name] member of one of them. *)
Definition listed (r : Response) : list json :=
  match payload r with
  | Json j =>
      match member "items" j with
      | Some (JArray l) => l
      | _ => []
      end
  | _ => []
  end.

Definition name_of (j : json) : string :=
  match member "name" j with
  | Some (JString s) => s
  | _ => ""
  end.

(** A file name as a directory holds it: not empty, without separator,
    and neither [.] nor [..]. *)
Definition file_name (s : string) : bool :=
  JS.truthy s && free_of Path.sep s
  && negb (s =? ".")%string && negb (s =? "..")%string.

(** The order a comparator induces: [a] may stand before [b]. *)
Definition precedes {A : Type} (compare : A -> A -> Z) (a b : A) : Prop :=
  compare a b <= 0.

(** Items in the order of their names. *)
Definition by_name (localeCompare : string -> string -> Z) (a b : Item)
    : Prop :=
  localeCompare (name a) (name b) <= 0.

(* ================================================================== *)
(** ** The client's navigation and search *)
(* ================================================================== *)

Module Client.

(** The part of the component state that navigation reads and writes. *)
Record State : Type := mkState {
  currentPath : string;
  selectedVideo : option Item
}.

(** [goBack]: the path without its last segment; empty segments are
    dropped, and popping an empty array leaves it empty. *)
Definition goBack (st : State) : State :=
  let pathParts := filter JS.truthy (JS.split "/"%char (currentPath st)) in
  let pathParts := removelast pathParts in
  mkState
    (if Nat.ltb 0 (List.length pathParts)
     then "/" ++ String.concat "/" pathParts
     else "/")
    (selectedVideo st).

(** [handleItemClick] *)
Definition handleItemClick (st : State) (item : Item) : State :=
  if (type item =? "folder")%string then
    mkState (path item) (selectedVideo st)
  else if (type item =? "video")%string then
    mkState (currentPath st) (Some item)
  else st.

(** [s.includes(t)]: [t] occurs in [s]. *)
Fixpoint includes (s t : string) : bool :=
  String.prefix t s
  || match s with
     | EmptyString => false
     | String _ s' => includes s' t
     end.

(** [filteredItems]; [toLowerCase] is the host's case mapping. *)
Definition filteredItems (toLowerCase : string -> string)
    (mediaItems : list Item) (searchTerm : string) : list Item :=
  filter
    (fun item =>
       includes (toLowerCase (name item)) (toLowerCase searchTerm))
    mediaItems.

End Client.

(* ================================================================== *)
(** ** Further notions used in the proofs *)
(* ================================================================== *)

(** A segment that normalisation keeps when it meets it: neither empty
    nor [.]. *)
Definition kept (seg : string) : bool :=
  negb ((seg =? "")%string || (seg =? ".")%string).

(** No segment of the path is [..]. *)
Definition stays_below (p : string) : bool :=
  forallb (fun seg => negb (seg =? "..")%string) (JS.split Path.sep p).

(** The absolute path with the given segments. *)
Definition abs_path (segs : list string) (trailing : bool) : string :=
  match segs with
  | [] => "/"
  | _ => "/" ++ String.concat "/" segs ++ (if trailing then "/" else "")
  end.

(** The segments of the normalised media root. *)
Definition root_segments (env : option string) : list string :=
  Path.normalize_segments false [] (JS.split Path.sep (media_root env)).

(** The segments a request adds below the root when it does not climb. *)
Definition request_segments (requestPath : string) : list string :=
  filter kept (JS.split Path.sep requestPath).

(** Every directory of the file system lists file names. *)
Definition lists_file_names (fs : Fs.filesystem) : Prop :=
  forall p children dsize mtime,
    fs p = Fs.Ok (Fs.Directory children dsize mtime) ->
    Forall (fun c => file_name c = true) children.

(** Two file systems agree on every path that begins with [prefix]. *)
Definition agree_under (prefix : string) (fs fs' : Fs.filesystem) : Prop :=
  forall p, JS.startsWith p prefix = true -> fs p = fs' p.

(** What every item of a successful listing satisfies. *)
Definition describes (fs : Fs.filesystem)
    (mime_lookup : string -> option string)
    (fullPath requestPath : string) (it : Item) : Prop :=
  describe fs mime_lookup fullPath requestPath (name it) = Fs.Ok it.

(** ASCII case mapping, for the sample. *)
Definition lower_ascii (c : ascii) : ascii :=
  let n := nat_of_ascii c in
  if Nat.leb 65 n && Nat.leb n 90 then ascii_of_nat (n + 32) else c.

Fixpoint lower (s : string) : string :=
  match s with
  | EmptyString => EmptyString
  | String c s' => String (lower_ascii c) (lower s')
  end.

(** The sample disk with one more file outside the media root. *)
Definition other_disk : Fs.filesystem := fun p =>
  if (p =? "/etc/passwd")%string
  then Fs.Ok (Fs.File Sample.secret Sample.stamp)
  else Sample.disk p.

(** A media root whose only child cannot be found. *)
Definition dangling_disk : Fs.filesystem := fun p =>
  if (p =? "/media")%string
  then Fs.Ok (Fs.Directory ["gone.mp4"] 4096 Sample.stamp)
  else Fs.Throw Fs.ENOENT.


(** The sample disk with the page of the client application built. *)
Definition built_disk : Fs.filesystem := fun p =>
  if (p =? "/srv/app/build/index.html")%string
  then Fs.Ok (Fs.File Sample.secret Sample.stamp)
  else Sample.disk p.

(** A decimal numeral of [n] nines. *)
Fixpoint nines (n : nat) : string :=
  match n with
  | O => EmptyString
  | S n' => String "9" (nines n')
  end.

Definition sample_items : list Item :=
  [mkItem "Holiday.MP4" "video" "/Holiday.MP4" (Some "1 GB") "2024-05-06";
   mkItem "notes.txt" "file" "/notes.txt" (Some "12 B") "2024-05-06"].

(* ================================================================== *)
(** ** Decimal rendering and [parseInt] *)
(* ================================================================== *)

Lemma parse_digits_uint (d : Decimal.uint) :
  forall acc rest,
    JS.parse_digits acc (NilEmpty.string_of_uint d ++ rest)
    = JS.parse_digits (uint_value acc d) rest.
Proof.
  induction d; intros acc rest; simpl; auto.
Qed.

Lemma uint_value_acc (d : Decimal.uint) :
  forall acc, uint_value (Z.pos acc) d = Z.pos (Pos.of_uint_acc d acc).
Proof.
  induction d; intros acc; cbn [uint_value Pos.of_uint_acc]; auto;
    rewrite <- IHd; f_equal; lia.
Qed.

Lemma uint_value_of_uint (d : Decimal.uint) :
  uint_value 0 d = Z.of_N (Pos.of_uint d).
Proof.
  induction d; simpl; auto;
    try (rewrite <- uint_value_acc; reflexivity).
Qed.

Lemma all_digits_uint (d : Decimal.uint) :
  all_digits (NilEmpty.string_of_uint d) = true.
Proof.
  induction d; simpl; auto.
Qed.

Lemma string_of_uint_nonnil (d : Decimal.uint) :
  d <> Decimal.Nil -> JS.truthy (NilEmpty.string_of_uint d) = true.
Proof.
  destruct d; simpl; intros H; congruence || reflexivity.
Qed.

(** The rendering of a natural number: digits only, at least one. *)
Lemma show_Z_digits (z : Z) : 0 <= z -> all_digits (JS.show_Z z) = true.
Proof.
  intros Hz. destruct z as [|p|p]; try lia; [reflexivity|].
  apply all_digits_uint.
Qed.

Lemma show_Z_truthy (z : Z) : 0 <= z -> JS.truthy (JS.show_Z z) = true.
Proof.
  intros Hz. destruct z as [|p|p]; try lia; [reflexivity|].
  apply string_of_uint_nonnil, Unsigned.to_uint_nonnil.
Qed.

Lemma show_Z_value (z : Z) rest :
  0 <= z -> JS.starts_with_digit rest = false ->
  JS.parse_digits 0 (JS.show_Z z ++ rest) = z.
Proof.
  intros Hz Hrest. destruct z as [|p|p]; try lia.
  - simpl. destruct rest as [|c rest]; simpl in *; auto.
    destruct (JS.digit_of c); [discriminate | reflexivity].
  - unfold JS.show_Z. cbn [Z.to_int NilEmpty.string_of_int].
    rewrite parse_digits_uint, uint_value_of_uint, Unsigned.of_to.
    destruct rest as [|c rest]; simpl in *; auto.
    destruct (JS.digit_of c); [discriminate | reflexivity].
Qed.

(** A string that begins with a digit is parsed from its first
    character: nothing is trimmed and no sign is read. *)
Lemma parseInt_digit_first (c : ascii) (s : string) :
  JS.starts_with_digit (String c s) = true ->
  JS.parseInt (String c s) = JS.of_Z (JS.parse_digits 0 (String c s)).
Proof.
  intros H.
  destruct c as [[] [] [] [] [] [] [] []]; try discriminate H;
    unfold JS.parseInt; cbn [JS.trim_start];
    match goal with
    | |- context [JS.is_space ?x] =>
        replace (JS.is_space x) with false by reflexivity
    end;
    cbn -[Z.mul JS.parse_digits]; now rewrite Z.mul_1_l.
Qed.

Lemma all_digits_first (s : string) :
  all_digits s = true -> JS.truthy s = true ->
  JS.starts_with_digit s = true.
Proof.
  destruct s as [|c s]; simpl; [discriminate|].
  destruct (JS.digit_of c); auto.
Qed.

(** An integer of magnitude up to 2^53 is a double. *)
Lemma of_Z_safe (z : Z) : Z.abs z <= 2 ^ 53 -> JS.of_Z z = JS.Int z.
Proof.
  intros H. unfold JS.of_Z.
  now replace (Z.abs z <=? 2 ^ 53) with true by (symmetry; now apply Z.leb_le).
Qed.

Lemma of_Z_offset (z : Z) :
  0 <= z <= Fs.MAX_SAFE_INTEGER -> JS.of_Z z = JS.Int z.
Proof.
  unfold Fs.MAX_SAFE_INTEGER. intros H. apply of_Z_safe. lia.
Qed.

(** An integer from 2^1024 on has no finite double. *)
Lemma of_Z_overflow (z : Z) : 2 ^ 1024 <= z -> JS.of_Z z = JS.Infinity.
Proof.
  intros H.
  assert (Hpos : 0 < 2 ^ 1024) by (apply Z.pow_pos_nonneg; lia).
  assert (H53 : 2 ^ 53 < 2 ^ 1024) by (apply Z.pow_lt_mono_r; lia).
  assert (Hz : 0 < z) by lia.
  unfold JS.of_Z. rewrite (Z.abs_eq z) by lia.
  replace (z <=? 2 ^ 53) with false by (symmetry; apply Z.leb_gt; lia).
  assert (Hlog : 1024 <= Z.log2 z) by (apply Z.log2_le_pow2; lia).
  set (sh := Z.log2 z - 52).
  assert (Hsh : 972 <= sh) by (unfold sh; lia).
  assert (Hp : 0 < 2 ^ sh) by (apply Z.pow_pos_nonneg; lia).
  assert (Hq : 2 ^ 52 <= z / 2 ^ sh).
  { apply Z.div_le_lower_bound; [exact Hp|].
    rewrite <- Z.pow_add_r by lia.
    replace (sh + 52) with (Z.log2 z) by (unfold sh; lia).
    apply Z.log2_spec. exact Hz. }
  set (q := z / 2 ^ sh) in *.
  match goal with
  | |- context [if ?c then q + 1 else q] =>
      set (m := if c then q + 1 else q);
      assert (Hm : 2 ^ 52 <= m) by (unfold m; destruct c; lia)
  end.
  assert (Hv : 2 ^ 1024 <= m * 2 ^ sh).
  { apply Z.le_trans with (2 ^ 52 * 2 ^ sh).
    - rewrite <- Z.pow_add_r by lia. apply Z.pow_le_mono_r; lia.
    - apply Z.mul_le_mono_nonneg_r; lia. }
  replace (2 ^ 1024 <=? m * 2 ^ sh) with true
    by (symmetry; now apply Z.leb_le).
  now replace (z <? 0) with false by (symmetry; apply Z.ltb_ge; lia).
Qed.

(** [parseInt] reads back what the rendering of a natural number shows,
    as a double. *)
Lemma parseInt_show_Z (z : Z) :
  0 <= z -> JS.parseInt (JS.show_Z z) = JS.of_Z z.
Proof.
  intros Hz.
  pose proof (all_digits_first _ (show_Z_digits z Hz) (show_Z_truthy z Hz))
    as Hd.
  destruct (JS.show_Z z) as [|c s] eqn:E; [discriminate|].
  rewrite parseInt_digit_first by exact Hd.
  rewrite <- E.
  replace (JS.show_Z z) with (JS.show_Z z ++ "").
  - f_equal. now apply show_Z_value.
  - clear. induction (JS.show_Z z); simpl; congruence.
Qed.

(* ================================================================== *)
(** ** [split] and [replace] *)
(* ================================================================== *)

Lemma split_free (c : ascii) (s : string) :
  free_of c s = true -> JS.split c s = [s].
Proof.
  induction s as [|x s IH]; simpl; auto.
  intros H. apply andb_prop in H as [Hx Hs].
  apply negb_true_iff in Hx. rewrite Hx, (IH Hs). reflexivity.
Qed.

Lemma split_at_first (c : ascii) (a b : string) :
  free_of c a = true ->
  JS.split c (a ++ String c b) = a :: JS.split c b.
Proof.
  induction a as [|x a IH]; simpl.
  - intros _. now rewrite Ascii.eqb_refl.
  - intros H. apply andb_prop in H as [Hx Ha].
    apply negb_true_iff in Hx. rewrite Hx, (IH Ha). reflexivity.
Qed.

Lemma digits_free_of_dash (s : string) :
  all_digits s = true -> free_of "-"%char s = true.
Proof.
  induction s as [|c s IH]; simpl; auto.
  destruct (JS.digit_of c) eqn:E; [|discriminate].
  intros H. rewrite (IH H), andb_true_r.
  destruct c as [[] [] [] [] [] [] [] []]; try discriminate E; reflexivity.
Qed.

Lemma replace_bytes_prefix (s : string) :
  JS.replace_first "bytes=" "" ("bytes=" ++ s) = s.
Proof.
  destruct s; reflexivity.
Qed.

(* ================================================================== *)
(** ** Range parsing *)
(* ================================================================== *)

Lemma range_bounds_parsed (s e fileSize : Z) :
  0 <= s -> 0 <= e ->
  range_bounds ("bytes=" ++ JS.show_Z s ++ "-" ++ JS.show_Z e) fileSize
  = (JS.of_Z s, JS.of_Z e).
Proof.
  intros Hs He. unfold range_bounds.
  rewrite replace_bytes_prefix.
  change ("-" ++ JS.show_Z e) with (String "-"%char (JS.show_Z e)).
  rewrite split_at_first by now apply digits_free_of_dash, show_Z_digits.
  rewrite split_free by now apply digits_free_of_dash, show_Z_digits.
  cbn [nth nth_error]. rewrite show_Z_truthy by assumption.
  now rewrite !parseInt_show_Z.
Qed.

Lemma range_bounds_closed (s e fileSize : Z) :
  0 <= s <= Fs.MAX_SAFE_INTEGER -> 0 <= e <= Fs.MAX_SAFE_INTEGER ->
  range_bounds ("bytes=" ++ JS.show_Z s ++ "-" ++ JS.show_Z e) fileSize
  = (JS.Int s, JS.Int e).
Proof.
  intros Hs He. rewrite range_bounds_parsed by lia.
  now rewrite !of_Z_offset.
Qed.

Lemma range_bounds_open (s fileSize : Z) :
  0 <= s <= Fs.MAX_SAFE_INTEGER ->
  range_bounds ("bytes=" ++ JS.show_Z s ++ "-") fileSize
  = (JS.Int s, JS.Int (fileSize - 1)).
Proof.
  intros Hs. unfold range_bounds.
  rewrite replace_bytes_prefix.
  rewrite split_at_first
    by (apply digits_free_of_dash, show_Z_digits; lia).
  cbn [nth nth_error JS.split JS.truthy String.eqb negb].
  rewrite parseInt_show_Z by lia. now rewrite of_Z_offset.
Qed.

(** The bounds a read stream takes. *)
Lemma accepts_iff (a b : JS.number) :
  Fs.accepts a b = true <->
  exists s, a = JS.Int s /\ 0 <= s <= Fs.MAX_SAFE_INTEGER /\
    (b = JS.Infinity \/
     exists e, b = JS.Int e /\ s <= e <= Fs.MAX_SAFE_INTEGER).
Proof.
  unfold Fs.accepts, Fs.valid_offset. split.
  - destruct a as [|s| |]; try discriminate.
    destruct b as [|e| |]; intros H.
    + apply andb_prop in H as [_ H]. discriminate.
    + exists s. split; [reflexivity|]. split; [lia|].
      right. exists e. split; [reflexivity | lia].
    + exists s. split; [reflexivity|]. split; [lia|]. now left.
    + apply andb_prop in H as [_ H]. discriminate.
  - intros (s & -> & Hs & [-> | (e & -> & He)]).
    + apply andb_true_intro; split; [|reflexivity].
      apply andb_true_intro; split; lia.
    + apply andb_true_intro; split;
        [|apply andb_true_intro; split];
        try (apply andb_true_intro; split); lia.
Qed.

Lemma accepts_offsets (s e : Z) :
  0 <= s <= e -> e <= Fs.MAX_SAFE_INTEGER ->
  Fs.accepts (JS.Int s) (JS.Int e) = true.
Proof.
  intros H1 H2. apply accepts_iff. exists s.
  split; [reflexivity|]. split; [lia|].
  right. exists e. split; [reflexivity | lia].
Qed.

Lemma accepts_offsets_inv (s e : Z) :
  Fs.accepts (JS.Int s) (JS.Int e) = true ->
  0 <= s <= e /\ e <= Fs.MAX_SAFE_INTEGER.
Proof.
  intros H. apply accepts_iff in H as (s' & E & Hs & [? | (e' & E' & He)]);
    [discriminate|].
  injection E as <-. injection E' as <-. lia.
Qed.

Ltac accepted s e := apply accepts_offsets; lia.

Lemma createReadStream_rejects (p : string) (a b : JS.number) :
  Fs.accepts a b = false ->
  Fs.createReadStream p (Some (a, b)) = Fs.Throw Fs.ERR_OUT_OF_RANGE.
Proof.
  intros H. unfold Fs.createReadStream. now rewrite H.
Qed.

(** The length announced for an accepted window. *)
Lemma chunksize_offsets (s e : Z) :
  0 <= s <= e -> e <= Fs.MAX_SAFE_INTEGER ->
  JS.add (JS.sub (JS.Int e) (JS.Int s)) (JS.Int 1) = JS.Int (e - s + 1).
Proof.
  unfold Fs.MAX_SAFE_INTEGER. intros H1 H2. cbn [JS.sub].
  rewrite of_Z_safe by lia. cbn [JS.add]. apply of_Z_safe. lia.
Qed.

(* ================================================================== *)
(** ** Byte windows *)
(* ================================================================== *)

Lemma window_length (content : list Byte.byte) (s e : Z) :
  0 <= s <= e -> e < Z.of_nat (List.length content) ->
  Z.of_nat (List.length (Fs.window content s e)) = e - s + 1.
Proof.
  intros H1 H2. unfold Fs.window.
  rewrite length_firstn, length_skipn. lia.
Qed.

Lemma window_nth (content : list Byte.byte) (s e j : Z) :
  0 <= s -> 0 <= j <= e - s ->
  nth_error (Fs.window content s e) (Z.to_nat j)
  = nth_error content (Z.to_nat (s + j)).
Proof.
  intros Hs Hj. unfold Fs.window.
  rewrite nth_error_firstn.
  replace (Nat.ltb (Z.to_nat j) (Z.to_nat (e - s + 1))) with true
    by (symmetry; apply Nat.ltb_lt; lia).
  rewrite nth_error_skipn. f_equal. lia.
Qed.

(* ================================================================== *)
(** ** The stream handler *)
(* ================================================================== *)

Section Stream.

Variable env_MEDIA_ROOT : option string.
Variable cwd : string.
Variable fs : Fs.filesystem.
Variable mime_lookup : string -> option string.

(** Past the containment check and the existence check the handler only
    looks at the size of what it found and at the range header. *)
Lemma stream_found (requestPath : string) (range : option string)
    (n : Fs.node) :
  access_denied env_MEDIA_ROOT cwd
    (fullPath_of env_MEDIA_ROOT requestPath) = false ->
  fs (fullPath_of env_MEDIA_ROOT requestPath) = Fs.Ok n ->
  stream env_MEDIA_ROOT cwd fs mime_lookup requestPath range =
    match range with
    | Some r =>
        if JS.truthy r
        then stream_range (fullPath_of env_MEDIA_ROOT requestPath)
               (content_type mime_lookup (fullPath_of env_MEDIA_ROOT requestPath))
               (Fs.size (Fs.stats_of n)) r
        else stream_whole (fullPath_of env_MEDIA_ROOT requestPath)
               (content_type mime_lookup (fullPath_of env_MEDIA_ROOT requestPath))
               (Fs.size (Fs.stats_of n))
    | None => stream_whole (fullPath_of env_MEDIA_ROOT requestPath)
                (content_type mime_lookup (fullPath_of env_MEDIA_ROOT requestPath))
                (Fs.size (Fs.stats_of n))
    end.
Proof.
  intros Hin Hfs.
  unfold stream.
  rewrite Hin. unfold Fs.existsSync, Fs.stat. rewrite Hfs.
  reflexivity.
Qed.

Lemma stream_range_accepted (fullPath mimeType range : string)
    (fileSize s e : Z) :
  range_bounds range fileSize = (JS.Int s, JS.Int e) ->
  Fs.accepts (JS.Int s) (JS.Int e) = true ->
  stream_range fullPath mimeType fileSize range =
    mkResponse 206
      [("Content-Type", mimeType);
       ("Content-Range",
        "bytes " ++ JS.show_Z s ++ "-" ++ JS.show_Z e
          ++ "/" ++ JS.show_Z fileSize);
       ("Accept-Ranges", "bytes");
       ("Content-Length", JS.show_Z (e - s + 1))]
      (Piped (Fs.mkReadStream fullPath (Some (s, Some e)))).
Proof.
  intros Hb Ha. unfold stream_range. rewrite Hb.
  unfold Fs.createReadStream. rewrite Ha.
  apply accepts_offsets_inv in Ha as [H1 H2].
  now rewrite chunksize_offsets.
Qed.

(** An [end] of [Infinity] is not checked against the start. *)
Lemma stream_range_unbounded (fullPath mimeType range : string)
    (fileSize s : Z) :
  range_bounds range fileSize = (JS.Int s, JS.Infinity) ->
  0 <= s <= Fs.MAX_SAFE_INTEGER ->
  stream_range fullPath mimeType fileSize range =
    mkResponse 206
      [("Content-Type", mimeType);
       ("Content-Range",
        "bytes " ++ JS.show_Z s ++ "-Infinity/" ++ JS.show_Z fileSize);
       ("Accept-Ranges", "bytes");
       ("Content-Length", "Infinity")]
      (Piped (Fs.mkReadStream fullPath (Some (s, None)))).
Proof.
  intros Hb Hs. unfold stream_range. rewrite Hb.
  assert (Ha : Fs.accepts (JS.Int s) JS.Infinity = true).
  { apply accepts_iff. exists s. split; [reflexivity|]. split; [lia|].
    now left. }
  unfold Fs.createReadStream. rewrite Ha. reflexivity.
Qed.

(** Whatever the bounds are, the answer is 206 when the read stream
    takes them and the error middleware's otherwise. *)
Lemma stream_range_cases (fullPath mimeType range : string)
    (fileSize : Z) :
  let start := fst (range_bounds range fileSize) in
  let end_ := snd (range_bounds range fileSize) in
  (Fs.accepts start end_ = true ->
   status (stream_range fullPath mimeType fileSize range) = 206 /\
   header "Content-Range" (stream_range fullPath mimeType fileSize range)
     = Some ("bytes " ++ JS.show start ++ "-" ++ JS.show end_
               ++ "/" ++ JS.show_Z fileSize) /\
   header "Content-Length" (stream_range fullPath mimeType fileSize range)
     = Some (JS.show (JS.add (JS.sub end_ start) (JS.Int 1))) /\
   exists window,
     payload (stream_range fullPath mimeType fileSize range)
     = Piped (Fs.mkReadStream fullPath (Some window))) /\
  (Fs.accepts start end_ = false ->
   stream_range fullPath mimeType fileSize range = error_middleware).
Proof.
  intros start end_. subst start end_. unfold stream_range.
  destruct (range_bounds range fileSize) as [a b]. cbn [fst snd].
  split; intros Ha.
  - unfold Fs.createReadStream. rewrite Ha.
    apply accepts_iff in Ha as (s & -> & Hs & [-> | (e & -> & He)]).
    + repeat split; try reflexivity. eexists. reflexivity.
    + repeat split; try reflexivity. eexists. reflexivity.
  - now rewrite createReadStream_rejects.
Qed.

Lemma stream_range_rejected (fullPath mimeType range : string)
    (fileSize : Z) :
  Fs.accepts (fst (range_bounds range fileSize))
             (snd (range_bounds range fileSize)) = false ->
  stream_range fullPath mimeType fileSize range = error_middleware.
Proof.
  intros Ha. unfold stream_range.
  destruct (range_bounds range fileSize) as [a b]. cbn [fst snd] in Ha.
  now rewrite createReadStream_rejects.
Qed.

End Stream.

(* ================================================================== *)
(** ** Sorting with a comparator *)
(* ================================================================== *)

Section Sort.

Variable A : Type.
Variable compare : A -> A -> Z.

Hypothesis compare_total :
  forall a b, precedes compare a b \/ precedes compare b a.
Hypothesis compare_trans :
  forall a b c,
    precedes compare a b -> precedes compare b c -> precedes compare a c.

Lemma insert_perm (x : A) (l : list A) :
  Permutation (x :: l) (insert compare x l).
Proof.
  induction l as [|y l IH]; simpl; auto.
  destruct (compare x y <=? 0); auto.
  rewrite perm_swap. now constructor.
Qed.

Lemma sort_perm (l : list A) : Permutation l (sort compare l).
Proof.
  induction l as [|x l IH]; simpl; auto.
  rewrite <- insert_perm. now constructor.
Qed.

Lemma insert_sorted (x : A) (l : list A) :
  StronglySorted (precedes compare) l ->
  StronglySorted (precedes compare) (insert compare x l).
Proof.
  induction 1 as [|y l Hl IH Hy]; simpl.
  - repeat constructor.
  - destruct (compare x y <=? 0) eqn:E.
    + apply Z.leb_le in E. constructor; [now constructor|].
      constructor; [exact E|].
      eapply Forall_impl; [|exact Hy].
      intros z Hz. now apply compare_trans with y.
    + apply Z.leb_gt in E. constructor; [exact IH|].
      eapply Permutation_Forall; [apply insert_perm|].
      constructor; [|exact Hy].
      destruct (compare_total x y) as [H|H];
        [unfold precedes in H; lia | exact H].
Qed.

Lemma sort_sorted (l : list A) :
  StronglySorted (precedes compare) (sort compare l).
Proof.
  induction l as [|x l IH]; simpl.
  - constructor.
  - now apply insert_sorted.
Qed.

End Sort.

(* ================================================================== *)
(** ** The browse handler *)
(* ================================================================== *)

Section Browse.

Variable env_MEDIA_ROOT : option string.
Variable cwd : string.
Variable fs : Fs.filesystem.
Variable mime_lookup : string -> option string.
Variable localeCompare : string -> string -> Z.


(** A response with status 200 comes from the end of the [try] block:
    the path is a directory, every child could be described, and the
    payload holds the sorted descriptions. *)
Lemma browse_ok (requestPath : string) :
  status (browse env_MEDIA_ROOT cwd fs mime_lookup localeCompare requestPath)
    = 200 ->
  exists children itemsWithStats,
    Fs.readdir fs (fullPath_of env_MEDIA_ROOT requestPath) = Fs.Ok children /\
    Fs.mapM (describe fs mime_lookup
               (fullPath_of env_MEDIA_ROOT requestPath) requestPath) children
      = Fs.Ok itemsWithStats /\
    browse env_MEDIA_ROOT cwd fs mime_lookup localeCompare requestPath =
      mkResponse 200 []
        (Json (JObject
          [("current_path",
            JString (if JS.truthy requestPath then requestPath else "/"));
           ("items",
            JArray (map item_json (sort (compare_items localeCompare) itemsWithStats)))])).
Proof.
  unfold browse.
  destruct (access_denied _ _ _); [discriminate|].
  unfold browse_try, Fs.stat, Fs.readdir.
  destruct (fs _) as [n|e]; cbn [Fs.bind];
    [|destruct e; discriminate].
  destruct n as [content t|children dsize t];
    cbn [Fs.stats_of Fs.isDirectory negb Fs.bind]; [discriminate|].
  match goal with
  | |- context [Fs.mapM ?f children] =>
      destruct (Fs.mapM f children) as [itemsWithStats|e] eqn:E
  end; cbn [Fs.bind]; [|destruct e; discriminate].
  intros _. exists children, itemsWithStats.
  split; [reflexivity|]. split; [exact E|reflexivity].
Qed.

Lemma describe_name (fullPath requestPath item : string) (it : Item) :
  describe fs mime_lookup fullPath requestPath item = Fs.Ok it -> name it = item.
Proof.
  unfold describe.
  destruct (Fs.stat _ _) as [st|e]; cbn [Fs.bind]; [|discriminate].
  destruct (Fs.isDirectory st); intros H; injection H as <-; reflexivity.
Qed.

Lemma mapM_describe_names (fullPath requestPath : string)
    (children : list string) :
  forall items,
    Fs.mapM (describe fs mime_lookup fullPath requestPath) children = Fs.Ok items ->
    map name items = children.
Proof.
  induction children as [|c children IH]; simpl; intros items H.
  - now injection H as <-.
  - destruct (describe fs mime_lookup fullPath requestPath c) as [it|e] eqn:E;
      cbn [Fs.bind] in H; [|discriminate].
    destruct (Fs.mapM (describe fs mime_lookup fullPath requestPath) children) as [its|e];
      cbn [Fs.bind] in H; [|discriminate].
    injection H as <-. simpl.
    now rewrite (describe_name _ _ _ _ E), (IH its).
Qed.

Lemma map_name_of_item_json (l : list Item) :
  map name_of (map item_json l) = map name l.
Proof.
  induction l as [|it l IH]; simpl; [reflexivity|].
  now rewrite IH.
Qed.

Section Order.

Hypothesis localeCompare_total :
  forall a b, localeCompare a b <= 0 \/ localeCompare b a <= 0.
Hypothesis localeCompare_trans :
  forall a b c,
    localeCompare a b <= 0 -> localeCompare b c <= 0 ->
    localeCompare a c <= 0.

Lemma compare_items_cases (a b : Item) :
  (is_folder a = true /\ is_folder b = false /\ compare_items localeCompare a b = -1) \/
  (is_folder a = false /\ is_folder b = true /\ compare_items localeCompare a b = 1) \/
  (is_folder a = is_folder b /\
   compare_items localeCompare a b = localeCompare (name a) (name b)).
Proof.
  unfold compare_items, is_folder.
  destruct (type a =? "folder")%string, (type b =? "folder")%string;
    cbn [negb andb]; auto.
Qed.

Lemma compare_items_total (a b : Item) :
  precedes (compare_items localeCompare) a b \/
  precedes (compare_items localeCompare) b a.
Proof.
  unfold precedes.
  destruct (compare_items_cases a b) as [(Ha & Hb & E)|[(Ha & Hb & E)|(Hab & E)]],
           (compare_items_cases b a) as [(Hb' & Ha' & E')|[(Hb' & Ha' & E')|(Hba & E')]];
    try congruence; try lia.
  rewrite E, E'. apply localeCompare_total.
Qed.

Lemma compare_items_trans (a b c : Item) :
  precedes (compare_items localeCompare) a b ->
  precedes (compare_items localeCompare) b c ->
  precedes (compare_items localeCompare) a c.
Proof.
  unfold precedes.
  destruct (compare_items_cases a b) as [(Ha & Hb & E1)|[(Ha & Hb & E1)|(Hab & E1)]],
           (compare_items_cases b c) as [(Hb' & Hc & E2)|[(Hb' & Hc & E2)|(Hbc & E2)]],
           (compare_items_cases a c) as [(Ha' & Hc' & E3)|[(Ha' & Hc' & E3)|(Hac & E3)]];
    try congruence; try lia.
  rewrite E1, E2, E3. apply localeCompare_trans.
Qed.

(** A list sorted by the comparator of the listing is a run of folders
    followed by a run of other items, each in name order. *)
Lemma sorted_groups (l : list Item) :
  StronglySorted (precedes (compare_items localeCompare)) l ->
  exists folders files,
    l = (folders ++ files)%list /\
    Forall (fun it => type it = "folder") folders /\
    Forall (fun it => type it <> "folder") files /\
    StronglySorted (by_name localeCompare) folders /\
    StronglySorted (by_name localeCompare) files.
Proof.
  induction 1 as [|x l Hl IH Hx].
  - exists [], []. repeat split; constructor.
  - destruct IH as (fo & fi & -> & Hfo & Hfi & Sfo & Sfi).
    apply Forall_app in Hx as [Hxfo Hxfi].
    destruct (is_folder x) eqn:Ex.
    + exists (x :: fo), fi. repeat split; auto.
      * constructor; [|exact Hfo]. now apply String.eqb_eq.
      * constructor; [exact Sfo|].
        rewrite Forall_forall in *. intros y Hy.
        specialize (Hxfo y Hy). specialize (Hfo y Hy).
        apply String.eqb_eq in Hfo. unfold precedes in Hxfo. unfold by_name.
        destruct (compare_items_cases x y)
          as [(_ & Hb & _)|[(Ha & _ & _)|(_ & E)]];
          unfold is_folder in *; try congruence.
    + assert (fo = []) as ->.
      { destruct fo as [|y fo]; [reflexivity|exfalso].
        apply Forall_inv in Hxfo, Hfo. apply String.eqb_eq in Hfo.
        unfold precedes in Hxfo.
        destruct (compare_items_cases x y)
          as [(Ha & _ & _)|[(_ & _ & E)|(Hab & _)]];
          unfold is_folder in *; try congruence; lia. }
      exists [], (x :: fi). repeat split; auto.
      * constructor; [|exact Hfi].
        intros E. apply String.eqb_eq in E. unfold is_folder in Ex.
        congruence.
      * constructor; [exact Sfi|].
        rewrite Forall_forall in *. intros y Hy.
        specialize (Hxfi y Hy). specialize (Hfi y Hy).
        apply String.eqb_neq in Hfi. unfold precedes in Hxfi. unfold by_name.
        destruct (compare_items_cases x y)
          as [(Ha & _ & _)|[(_ & Hb & _)|(_ & E)]];
          unfold is_folder in *; try congruence.
Qed.

End Order.

End Browse.

(* ================================================================== *)
(** ** Paths *)
(* ================================================================== *)

Lemma append_assoc (a b c : string) : (a ++ b) ++ c = a ++ (b ++ c).
Proof.
  induction a as [|x a IH]; simpl; congruence.
Qed.

Lemma isAbsolute_append (a b : string) :
  JS.truthy a = true -> Path.isAbsolute (a ++ b) = Path.isAbsolute a.
Proof.
  destruct a; [discriminate | reflexivity].
Qed.

Lemma truthy_append (a b : string) :
  JS.truthy a = true -> JS.truthy (a ++ b) = true.
Proof.
  destruct a; [discriminate | reflexivity].
Qed.

Lemma truthy_eqb (s : string) :
  JS.truthy s = true -> (s =? "")%string = false.
Proof.
  unfold JS.truthy. now intros H%negb_true_iff.
Qed.

Lemma split_nonempty (c : ascii) (s : string) : JS.split c s <> [].
Proof.
  induction s as [|x s IH]; simpl; [discriminate|].
  destruct (Ascii.eqb x c); [discriminate|].
  destruct (JS.split c s); [contradiction | discriminate].
Qed.

Lemma split_append (c : ascii) (a b : string) :
  JS.split c (a ++ String c b) = (JS.split c a ++ JS.split c b)%list.
Proof.
  induction a as [|x a IH]; simpl.
  - now rewrite Ascii.eqb_refl.
  - rewrite IH. destruct (Ascii.eqb x c); [reflexivity|].
    pose proof (split_nonempty c a) as Hne.
    destruct (JS.split c a); [contradiction | reflexivity].
Qed.

(** No piece of a path split at the separator starts with one. *)
Lemma split_pieces_relative (p : string) :
  Forall (fun s => Path.isAbsolute s = false) (JS.split Path.sep p).
Proof.
  induction p as [|x p IH]; simpl.
  - repeat constructor.
  - destruct (Ascii.eqb x Path.sep) eqn:E.
    + constructor; [reflexivity | exact IH].
    + destruct (JS.split Path.sep p) as [|piece pieces].
      * repeat constructor. simpl. exact E.
      * inversion IH; subst. constructor; [simpl; exact E | assumption].
Qed.

Lemma normalize_segments_proper (allow : bool) (segs : list string) :
  forall acc,
    Forall (fun s => proper_segment s = true) acc ->
    Forall (fun s => Path.isAbsolute s = false) segs ->
    Forall (fun s => proper_segment s = true)
      (Path.normalize_segments allow acc segs).
Proof.
  induction segs as [|seg segs IH]; intros acc Hacc Hsegs; simpl.
  - now apply Forall_rev.
  - inversion Hsegs as [|? ? Hseg Hrest]; subst.
    destruct ((seg =? "")%string || (seg =? ".")%string) eqn:E1.
    { now apply IH. }
    apply orb_false_elim in E1 as [E1 _].
    destruct (seg =? "..")%string eqn:E2.
    + destruct acc as [|top acc'].
      * apply IH; [|exact Hrest].
        destruct allow; repeat constructor.
      * inversion Hacc; subst.
        destruct (top =? "..")%string; apply IH; auto.
        destruct allow; auto.
    + apply IH; [|exact Hrest].
      constructor; [|exact Hacc].
      unfold proper_segment, JS.truthy. now rewrite E1, Hseg.
Qed.

Lemma concat_proper_relative (segs : list string) :
  Forall (fun s => proper_segment s = true) segs ->
  Path.isAbsolute (String.concat "/" segs) = false.
Proof.
  destruct segs as [|s rest]; [reflexivity|].
  intros H. apply Forall_inv in H.
  unfold proper_segment in H. apply andb_prop in H as [Ht Ha].
  apply negb_true_iff in Ha.
  simpl. destruct rest; [exact Ha|].
  now rewrite isAbsolute_append.
Qed.

Lemma normalizeString_relative (p : string) (allow : bool) :
  Path.isAbsolute (Path.normalizeString p allow) = false.
Proof.
  apply concat_proper_relative, normalize_segments_proper.
  - constructor.
  - apply split_pieces_relative.
Qed.

(** Normalising a relative path gives a relative path. *)
Lemma normalize_relative (p : string) :
  Path.isAbsolute p = false -> Path.isAbsolute (Path.normalize p) = false.
Proof.
  intros Hrel. unfold Path.normalize.
  destruct (p =? "")%string; [reflexivity|].
  rewrite Hrel. cbn [negb].
  pose proof (normalizeString_relative p true) as Hq.
  destruct (Path.normalizeString p true =? "")%string eqn:E.
  - destruct (Path.ends_with_sep p); reflexivity.
  - destruct (Path.ends_with_sep p); [|exact Hq].
    rewrite isAbsolute_append; [exact Hq|].
    unfold JS.truthy. now rewrite E.
Qed.

(** Joining a request onto a relative root gives a relative path. *)
Lemma join_relative (root requestPath : string) :
  JS.truthy root = true -> Path.isAbsolute root = false ->
  Path.isAbsolute (Path.join [root; requestPath]) = false.
Proof.
  intros Ht Hrel. unfold Path.join. cbn [Path.glue].
  rewrite (truthy_eqb _ Ht).
  destruct (requestPath =? "")%string; apply normalize_relative.
  - exact Hrel.
  - now rewrite isAbsolute_append.
Qed.

Lemma resolve_loop_absolute (cwd : string) (paths : list string) :
  Path.isAbsolute cwd = true ->
  forall acc, snd (Path.resolve_loop (paths ++ [cwd]) acc) = true.
Proof.
  intros Hcwd.
  induction paths as [|p paths IH]; intros acc; simpl.
  - destruct cwd; [discriminate|]. cbn [String.eqb].
    simpl in Hcwd |- *. now rewrite Hcwd.
  - destruct (p =? "")%string; [apply IH|].
    destruct (Path.isAbsolute p); [reflexivity | apply IH].
Qed.

(** In a process with an absolute working directory [path.resolve]
    returns an absolute path. *)
Lemma resolve_absolute (cwd : string) (args : list string) :
  Path.isAbsolute cwd = true ->
  Path.isAbsolute (Path.resolve cwd args) = true.
Proof.
  intros Hcwd. unfold Path.resolve.
  pose proof (resolve_loop_absolute cwd (rev args) Hcwd "") as H.
  destruct (Path.resolve_loop (rev args ++ [cwd]) "") as [p abs].
  simpl in H. subst abs. reflexivity.
Qed.

Lemma startsWith_absolute (s p : string) :
  Path.isAbsolute s = false -> Path.isAbsolute p = true ->
  JS.startsWith s p = false.
Proof.
  unfold JS.startsWith.
  destruct p as [|c p]; [discriminate|]. destruct s as [|d s]; simpl.
  - reflexivity.
  - intros Hd Hc. destruct (ascii_dec c d) as [->|]; [congruence|reflexivity].
Qed.

Lemma media_root_truthy (env : option string) :
  JS.truthy (media_root env) = true.
Proof.
  destruct env as [r|]; simpl; [|reflexivity].
  destruct (JS.truthy r) eqn:E; [exact E | reflexivity].
Qed.

(* ================================================================== *)
(** ** The last segment of a joined path *)
(* ================================================================== *)

Lemma normalize_segments_append (allow : bool) (segs segs' : list string) :
  forall acc,
    Path.normalize_segments allow acc (segs ++ segs')
    = Path.normalize_segments allow
        (rev (Path.normalize_segments allow acc segs)) segs'.
Proof.
  induction segs as [|seg segs IH]; intros acc; simpl.
  - now rewrite rev_involutive.
  - destruct ((seg =? "")%string || (seg =? ".")%string); [apply IH|].
    destruct (seg =? "..")%string; [|apply IH].
    destruct acc as [|top acc']; [apply IH|].
    destruct (top =? "..")%string; apply IH.
Qed.

Lemma file_name_inv (file : string) :
  file_name file = true ->
  JS.truthy file = true /\ free_of Path.sep file = true /\
  (file =? ".")%string = false /\ (file =? "..")%string = false.
Proof.
  unfold file_name. intros H.
  apply andb_prop in H as [H H4]. apply andb_prop in H as [H H3].
  apply andb_prop in H as [H1 H2].
  apply negb_true_iff in H3, H4. auto.
Qed.


Lemma concat_file (segs : list string) (file : string) :
  String.concat "/" (segs ++ [file])
  = match segs with
    | [] => file
    | _ => String.concat "/" segs ++ String Path.sep file
    end.
Proof.
  induction segs as [|s segs IH]; [reflexivity|].
  cbn [app]. destruct segs as [|s' segs].
  - reflexivity.
  - change (String.concat "/" (s :: (s' :: segs) ++ [file]))
      with (s ++ "/" ++ String.concat "/" ((s' :: segs) ++ [file])).
    rewrite IH.
    change (String.concat "/" (s :: s' :: segs))
      with (s ++ "/" ++ String.concat "/" (s' :: segs)).
    now rewrite !append_assoc.
Qed.



Lemma ends_with_sep_append (a b : string) :
  JS.truthy b = true ->
  Path.ends_with_sep (a ++ b) = Path.ends_with_sep b.
Proof.
  intros Hb. induction a as [|x a IH]; [reflexivity|].
  cbn [append]. rewrite <- IH.
  destruct (a ++ b) eqn:E; [|reflexivity].
  destruct a, b; discriminate.
Qed.

Lemma ends_with_sep_free (s : string) :
  JS.truthy s = true -> free_of Path.sep s = true ->
  Path.ends_with_sep s = false.
Proof.
  induction s as [|x s IH]; [discriminate|].
  intros _ Hfree. simpl in Hfree. apply andb_prop in Hfree as [Hx Hfree].
  destruct s as [|y s].
  - simpl. now apply negb_true_iff in Hx.
  - now apply IH.
Qed.

Lemma ends_with_sep_file (a file : string) :
  file_name file = true ->
  Path.ends_with_sep (a ++ String Path.sep file) = false.
Proof.
  intros (Ht & Hfree & _)%file_name_inv.
  rewrite ends_with_sep_append by reflexivity.
  destruct file as [|x file]; [discriminate|].
  now apply (ends_with_sep_free (String x file)).
Qed.



(** C9.  When the configured media root is a relative path, as the
    default [./media] is, the joined request path is relative while the
    resolved root is absolute, so the containment check fails for every
    requested path: browse, stream and download all answer 403 with the
    JSON error and deliver no file. *)
Theorem relative_root_denies_every_request
    (env : option string) (cwd : string) (fs : Fs.filesystem)
    (mime_lookup : string -> option string)
    (localeCompare : string -> string -> Z)
    (contentDisposition : string -> string) (dirname : string)
    (requestPath : string) (range : option string) :
  Path.isAbsolute (media_root env) = false ->
  Path.isAbsolute cwd = true ->
  media_root None = "./media" /\
  Path.isAbsolute (media_root None) = false /\
  browse env cwd fs mime_lookup localeCompare requestPath
    = error_response 403 "Access denied" /\
  stream env cwd fs mime_lookup requestPath range
    = error_response 403 "Access denied" /\
  download env cwd fs contentDisposition dirname requestPath range
    = error_response 403 "Access denied" /\
  delivered fs (stream env cwd fs mime_lookup requestPath range) = None /\
  delivered fs
    (download env cwd fs contentDisposition dirname requestPath range)
    = None.
Proof.
  intros Hrel Hcwd.
  assert (Hdenied : access_denied env cwd (fullPath_of env requestPath)
                    = true).
  { unfold access_denied, fullPath_of, MEDIA_ROOT.
    rewrite startsWith_absolute; [reflexivity | |].
    - apply join_relative; [apply media_root_truthy | exact Hrel].
    - now apply resolve_absolute. }
  assert (Hs : stream env cwd fs mime_lookup requestPath range
               = error_response 403 "Access denied")
    by (unfold stream; now rewrite Hdenied).
  assert (Hd : download env cwd fs contentDisposition dirname requestPath
                 range
               = error_response 403 "Access denied")
    by (unfold download; now rewrite Hdenied).
  repeat split; auto.
  - unfold browse. now rewrite Hdenied.
  - now rewrite Hs.
  - now rewrite Hd.
Qed.

(** C5.  A stream request for an existing file of size S that passes the
    containment check, with a range header [bytes=<start>-<end>] where
    0 <= start <= end < S (or [bytes=<start>-], the end then being S-1),
    is answered with status 206, [Content-Range: bytes start-end/S],
    [Accept-Ranges: bytes], [Content-Length: end-start+1], and a body
    that is exactly the bytes of the file at offsets start to end. *)
Theorem stream_range_partial_content
    (env : option string) (cwd : string) (fs : Fs.filesystem)
    (mime_lookup : string -> option string)
    (requestPath range : string)
    (content : list Byte.byte) (mtime : string) (s e : Z) :
  let fullPath := fullPath_of env requestPath in
  let S := Z.of_nat (List.length content) in
  access_denied env cwd fullPath = false ->
  fs fullPath = Fs.Ok (Fs.File content mtime) ->
  S <= Fs.MAX_SAFE_INTEGER ->
  0 <= s <= e -> e < S ->
  range = "bytes=" ++ JS.show_Z s ++ "-" ++ JS.show_Z e \/
  (e = S - 1 /\ range = "bytes=" ++ JS.show_Z s ++ "-") ->
  let r := stream env cwd fs mime_lookup requestPath (Some range) in
  status r = 206 /\
  header "Content-Range" r
    = Some ("bytes " ++ JS.show_Z s ++ "-" ++ JS.show_Z e
              ++ "/" ++ JS.show_Z S) /\
  header "Accept-Ranges" r = Some "bytes" /\
  header "Content-Length" r = Some (JS.show_Z (e - s + 1)) /\
  delivered fs r = Some (Fs.window content s e) /\
  Z.of_nat (List.length (Fs.window content s e)) = e - s + 1 /\
  (forall j, 0 <= j <= e - s ->
     nth_error (Fs.window content s e) (Z.to_nat j)
     = nth_error content (Z.to_nat (s + j))).
Proof.
  intros fullPath S Hin Hfs Hsafe Hse HeS Hrange r.
  assert (Hb : range_bounds range S = (JS.Int s, JS.Int e)).
  { destruct Hrange as [-> | [-> ->]].
    - apply range_bounds_closed; lia.
    - apply range_bounds_open; lia. }
  assert (Ha : Fs.accepts (JS.Int s) (JS.Int e) = true).
  { accepted s e. }
  assert (Ht : JS.truthy range = true)
    by (destruct Hrange as [-> | [_ ->]]; reflexivity).
  assert (Hr : r = stream_range fullPath (content_type mime_lookup fullPath)
                     S range).
  { subst r. rewrite (stream_found _ _ _ _ _ _ _ Hin Hfs), Ht.
    reflexivity. }
  rewrite (stream_range_accepted _ _ _ _ _ _ Hb Ha) in Hr.
  rewrite Hr.
  repeat split; try reflexivity.
  - unfold delivered, Fs.read; cbn [payload Fs.rs_path Fs.rs_window Fs.bind].
    fold fullPath. now rewrite Hfs.
  - apply window_length; lia.
  - intros j Hj. apply window_nth; lia.
Qed.

(** C6.  A stream request for an existing file of size S that passes the
    containment check and carries no range header is answered with
    status 200, [Content-Length: S], [Accept-Ranges: bytes], and the
    whole content of the file as body. *)
Theorem stream_whole_file
    (env : option string) (cwd : string) (fs : Fs.filesystem)
    (mime_lookup : string -> option string)
    (requestPath : string) (content : list Byte.byte) (mtime : string) :
  let fullPath := fullPath_of env requestPath in
  let S := Z.of_nat (List.length content) in
  access_denied env cwd fullPath = false ->
  fs fullPath = Fs.Ok (Fs.File content mtime) ->
  let r := stream env cwd fs mime_lookup requestPath None in
  status r = 200 /\
  header "Content-Length" r = Some (JS.show_Z S) /\
  header "Accept-Ranges" r = Some "bytes" /\
  delivered fs r = Some content /\
  Z.of_nat (List.length content) = S.
Proof.
  intros fullPath S Hin Hfs r. subst r.
  rewrite (stream_found _ _ _ _ _ _ _ Hin Hfs).
  repeat split.
  unfold delivered, Fs.read, stream_whole;
    cbn [payload Fs.createReadStream Fs.rs_path Fs.rs_window Fs.bind].
  fold fullPath. now rewrite Hfs.
Qed.

(** C2, as the handler behaves.  A stream request for an existing file
    that passes the containment check and carries a non-empty range
    header is never answered 400 or 416, because the handler does not
    validate the parsed bounds.  The read stream takes them exactly when
    the start is an integer from 0 to 2^53-1 and the end is either an
    integer from the start to 2^53-1 or [Infinity], which is what a digit
    run worth 2^1024 or more parses to.  Then the answer is 206 with
    [Content-Range] and [Content-Length] built from the parsed values,
    also when the start is at or past the size of the file.  With any
    other bounds creating the read stream throws before a status is
    written, and the error middleware answers 500 with its JSON error. *)
Theorem stream_range_not_validated
    (env : option string) (cwd : string) (fs : Fs.filesystem)
    (mime_lookup : string -> option string)
    (requestPath range : string)
    (content : list Byte.byte) (mtime : string) :
  let fullPath := fullPath_of env requestPath in
  let S := Z.of_nat (List.length content) in
  access_denied env cwd fullPath = false ->
  fs fullPath = Fs.Ok (Fs.File content mtime) ->
  JS.truthy range = true ->
  let r := stream env cwd fs mime_lookup requestPath (Some range) in
  let start := fst (range_bounds range S) in
  let end_ := snd (range_bounds range S) in
  (Fs.accepts start end_ = true <->
   exists s, start = JS.Int s /\ 0 <= s <= Fs.MAX_SAFE_INTEGER /\
     (end_ = JS.Infinity \/
      exists e, end_ = JS.Int e /\ s <= e <= Fs.MAX_SAFE_INTEGER)) /\
  (forall s e,
     range_bounds range S = (JS.Int s, JS.Int e) ->
     0 <= s <= e -> e <= Fs.MAX_SAFE_INTEGER ->
     status r = 206 /\
     header "Content-Range" r
       = Some ("bytes " ++ JS.show_Z s ++ "-" ++ JS.show_Z e
                 ++ "/" ++ JS.show_Z S) /\
     header "Content-Length" r = Some (JS.show_Z (e - s + 1))) /\
  (forall s,
     range_bounds range S = (JS.Int s, JS.Infinity) ->
     0 <= s <= Fs.MAX_SAFE_INTEGER ->
     status r = 206 /\
     header "Content-Range" r
       = Some ("bytes " ++ JS.show_Z s ++ "-Infinity/" ++ JS.show_Z S) /\
     header "Content-Length" r = Some "Infinity") /\
  (forall s z,
     0 <= s <= Fs.MAX_SAFE_INTEGER -> 2 ^ 1024 <= z ->
     range = "bytes=" ++ JS.show_Z s ++ "-" ++ JS.show_Z z ->
     range_bounds range S = (JS.Int s, JS.Infinity)) /\
  (Fs.accepts start end_ = false ->
   status r = 500 /\ payload r = payload error_middleware) /\
  (status r = 206 \/ status r = 500) /\
  status r <> 400 /\ status r <> 416.
Proof.
  intros fullPath S Hin Hfs Ht r start end_.
  assert (Hr : r = stream_range fullPath (content_type mime_lookup fullPath)
                     S range).
  { subst r. rewrite (stream_found _ _ _ _ _ _ _ Hin Hfs), Ht.
    reflexivity. }
  destruct (stream_range_cases fullPath (content_type mime_lookup fullPath)
              range S) as [Hyes Hno].
  fold start end_ in Hyes, Hno. rewrite <- Hr in Hyes, Hno.
  assert (H3 : status r = 206 \/ status r = 500).
  { destruct (Fs.accepts start end_) eqn:Ha.
    - left. now apply Hyes.
    - right. now rewrite Hno. }
  split; [apply accepts_iff|].
  split; [|split; [|split; [|split; [|split; [exact H3|]]]]].
  - intros s e Hb Hse He. rewrite Hr.
    rewrite (stream_range_accepted _ _ _ _ s e Hb) by (accepted s e).
    repeat split.
  - intros s Hb Hs. rewrite Hr.
    rewrite (stream_range_unbounded _ _ _ _ s Hb Hs). repeat split.
  - intros s z Hs Hz ->. rewrite range_bounds_parsed.
    + now rewrite of_Z_offset, of_Z_overflow.
    + lia.
    + assert (0 < 2 ^ 1024) by (apply Z.pow_pos_nonneg; lia). lia.
  - intros Ha. now rewrite (Hno Ha).
  - destruct H3 as [-> | ->]; split; discriminate.
Qed.

(** C10, as the handler behaves.  The stream handler never asks whether
    what it found is a regular file, and for a path that passes the
    containment check and names a directory it never answers with a 4xx
    status.  Without a range header, or with an empty one, it writes 200
    with the size of the directory's stat as [Content-Length] and pipes
    a read stream of the directory into the response.  With a non-empty
    range header it writes 206, with a [Content-Range] built from the
    parsed bounds and that size, and pipes a read stream of the
    directory, exactly when the read stream takes the bounds: the start
    an integer from 0 to 2^53-1, the end an integer from the start to
    2^53-1 or [Infinity].  With any other bounds creating the read
    stream throws and the error middleware answers 500.  The browse
    handler answers 400 in the mirror case of a regular file. *)
Theorem stream_directory_not_rejected
    (env : option string) (cwd : string) (fs : Fs.filesystem)
    (mime_lookup : string -> option string)
    (requestPath : string)
    (children : list string) (dsize : Z) (mtime : string) :
  let fullPath := fullPath_of env requestPath in
  access_denied env cwd fullPath = false ->
  fs fullPath = Fs.Ok (Fs.Directory children dsize mtime) ->
  (forall range,
     range = None \/ range = Some "" ->
     let r := stream env cwd fs mime_lookup requestPath range in
     status r = 200 /\
     header "Content-Length" r = Some (JS.show_Z dsize) /\
     payload r = Piped (Fs.mkReadStream fullPath None)) /\
  (forall range,
     JS.truthy range = true ->
     let r := stream env cwd fs mime_lookup requestPath (Some range) in
     let start := fst (range_bounds range dsize) in
     let end_ := snd (range_bounds range dsize) in
     (Fs.accepts start end_ = true <->
      exists s, start = JS.Int s /\ 0 <= s <= Fs.MAX_SAFE_INTEGER /\
        (end_ = JS.Infinity \/
         exists e, end_ = JS.Int e /\ s <= e <= Fs.MAX_SAFE_INTEGER)) /\
     (Fs.accepts start end_ = true ->
      status r = 206 /\
      header "Content-Range" r
        = Some ("bytes " ++ JS.show start ++ "-" ++ JS.show end_
                  ++ "/" ++ JS.show_Z dsize) /\
      exists window,
        payload r = Piped (Fs.mkReadStream fullPath (Some window))) /\
     (Fs.accepts start end_ = false ->
      status r = 500 /\ payload r = payload error_middleware)) /\
  (forall range,
     let r := stream env cwd fs mime_lookup requestPath range in
     status r = 200 \/ status r = 206 \/ status r = 500) /\
  (forall fs' localeCompare content mtime',
     fs' fullPath = Fs.Ok (Fs.File content mtime') ->
     status (browse env cwd fs' mime_lookup localeCompare requestPath)
     = 400).
Proof.
  intros fullPath Hin Hfs.
  pose proof (fun range => stream_found env cwd fs mime_lookup requestPath
                             range _ Hin Hfs) as Hs.
  cbn [Fs.stats_of Fs.size] in Hs. fold fullPath in Hs.
  split; [|split; [|split]].
  - intros range Hrange r. subst r. rewrite Hs.
    destruct Hrange as [-> | ->]; repeat split.
  - intros range Ht r start end_. subst r. rewrite Hs, Ht.
    destruct (stream_range_cases fullPath
                (content_type mime_lookup fullPath) range dsize)
      as [Hyes Hno].
    fold start end_ in Hyes, Hno.
    split; [apply accepts_iff|]. split.
    + intros Ha. destruct (Hyes Ha) as (H1 & H2 & _ & H4). auto.
    + intros Ha. now rewrite (Hno Ha).
  - intros range r. subst r. rewrite Hs.
    destruct range as [range|]; [|now left].
    destruct (JS.truthy range); [|now left].
    right.
    destruct (stream_range_cases fullPath
                (content_type mime_lookup fullPath) range dsize)
      as [Hyes Hno].
    destruct (Fs.accepts (fst (range_bounds range dsize))
                (snd (range_bounds range dsize))) eqn:Ha.
    + left. now apply Hyes.
    + right. now rewrite Hno.
  - intros fs' localeCompare content mtime' Hfile.
    unfold browse. fold fullPath. rewrite Hin.
    unfold browse_try, Fs.stat. rewrite Hfile. reflexivity.
Qed.

(** The sample collation is a consistent comparator. *)
Lemma sample_localeCompare_total (a : string) :
  forall b,
    Sample.localeCompare a b <= 0 \/ Sample.localeCompare b a <= 0.
Proof.
  induction a as [|x a IH]; intros [|y b]; simpl; try lia.
  destruct (Z.ltb_spec (Sample.fold_case x) (Sample.fold_case y)),
           (Z.ltb_spec (Sample.fold_case y) (Sample.fold_case x));
    try lia.
  apply IH.
Qed.

Lemma sample_localeCompare_trans (a : string) :
  forall b c,
    Sample.localeCompare a b <= 0 -> Sample.localeCompare b c <= 0 ->
    Sample.localeCompare a c <= 0.
Proof.
  induction a as [|x a IH]; intros [|y b] [|z c]; simpl; try lia.
  destruct (Z.ltb_spec (Sample.fold_case x) (Sample.fold_case y)),
           (Z.ltb_spec (Sample.fold_case y) (Sample.fold_case x)),
           (Z.ltb_spec (Sample.fold_case y) (Sample.fold_case z)),
           (Z.ltb_spec (Sample.fold_case z) (Sample.fold_case y)),
           (Z.ltb_spec (Sample.fold_case x) (Sample.fold_case z)),
           (Z.ltb_spec (Sample.fold_case z) (Sample.fold_case x));
    try lia.
  apply IH.
Qed.

(** C7.  In every listing the folders come before all other entries, and
    within the folders and within the other entries the order is that
    of [localeCompare] on the names; the entries are those of the
    directory.  A directory holding the file [b.mp4], the directory [A]
    and the file [a.txt] is listed as [A], [a.txt], [b.mp4]. *)
Theorem listing_folders_first_then_by_name
    (env : option string) (cwd : string) (fs : Fs.filesystem)
    (mime_lookup : string -> option string)
    (localeCompare : string -> string -> Z)
    (localeCompare_total :
       forall a b, localeCompare a b <= 0 \/ localeCompare b a <= 0)
    (localeCompare_trans :
       forall a b c,
         localeCompare a b <= 0 -> localeCompare b c <= 0 ->
         localeCompare a c <= 0)
    (requestPath : string) :
  (status (browse env cwd fs mime_lookup localeCompare requestPath) = 200 ->
   exists folders files,
     listed (browse env cwd fs mime_lookup localeCompare requestPath)
       = map item_json (folders ++ files)%list /\
     Forall (fun it => type it = "folder") folders /\
     Forall (fun it => type it <> "folder") files /\
     StronglySorted (by_name localeCompare) folders /\
     StronglySorted (by_name localeCompare) files /\
     (forall children,
        Fs.readdir fs (fullPath_of env requestPath) = Fs.Ok children ->
        Permutation children (map name (folders ++ files)%list))) /\
  (0 < localeCompare "b.mp4" "a.txt" ->
   Fs.readdir Sample.disk "/media/mix" = Fs.Ok ["b.mp4"; "A"; "a.txt"] /\
   map name_of
     (listed (browse Sample.env Sample.cwd Sample.disk Sample.mime_lookup
                localeCompare "mix"))
   = ["A"; "a.txt"; "b.mp4"]).
Proof.
  split.
  - intros H200.
    destruct (browse_ok _ _ _ _ _ _ H200)
      as (children & itemsWithStats & Hdir & Hmap & Hresp).
    destruct (sorted_groups localeCompare
                (sort (compare_items localeCompare) itemsWithStats))
      as (folders & files & Hsplit & Hfo & Hfi & Sfo & Sfi).
    { apply sort_sorted.
      - apply compare_items_total, localeCompare_total.
      - intros a b c. apply compare_items_trans, localeCompare_trans. }
    exists folders, files. repeat split; auto.
    + rewrite Hresp. unfold listed. cbn. now rewrite Hsplit.
    + intros children' Hdir'. rewrite Hdir in Hdir'.
      injection Hdir' as <-. rewrite <- Hsplit.
      rewrite <- (mapM_describe_names _ _ _ _ _ _ Hmap).
      apply Permutation_map, sort_perm.
  - intros Hba. split; [reflexivity|].
    vm_compute.
    destruct (localeCompare "b.mp4" "a.txt"); [lia | reflexivity | lia].
Qed.

(** C4, as the handler behaves.  The JSON document of a successful
    listing has exactly the two top-level members [current_path] and
    [items]; [current_path] is the requested path, or [/] when the
    requested path is empty, and [items] is an array. *)
Theorem browse_payload_members
    (env : option string) (cwd : string) (fs : Fs.filesystem)
    (mime_lookup : string -> option string)
    (localeCompare : string -> string -> Z)
    (requestPath : string) :
  status (browse env cwd fs mime_lookup localeCompare requestPath) = 200 ->
  exists j items,
    payload (browse env cwd fs mime_lookup localeCompare requestPath)
      = Json j /\
    keys j = ["current_path"; "items"] /\
    member "items" j = Some (JArray items) /\
    (requestPath = "" -> member "current_path" j = Some (JString "/")) /\
    (requestPath <> "" ->
     member "current_path" j = Some (JString requestPath)).
Proof.
  intros H200.
  destruct (browse_ok _ _ _ _ _ _ H200)
    as (children & itemsWithStats & _ & _ & Hresp).
  rewrite Hresp. cbn [payload].
  eexists. eexists. split; [reflexivity|].
  repeat split.
  - intros ->. reflexivity.
  - intros Hne. cbn. apply String.eqb_neq in Hne.
    unfold JS.truthy. now rewrite Hne.
Qed.

(* ================================================================== *)
(** ** The size formatter *)
(* ================================================================== *)

Lemma floor_log_k_spec (bytes : Z) :
  0 < bytes <= log_exact ->
  0 <= floor_log_k bytes <= 4 /\
  k ^ floor_log_k bytes <= bytes < k ^ (floor_log_k bytes + 1).
Proof.
  intros [Hpos Hmax]. unfold floor_log_k, k.
  pose proof (Z.log2_spec bytes Hpos) as [Hlo Hhi].
  pose proof (Z.log2_nonneg bytes) as H0.
  set (L := Z.log2 bytes) in *.
  assert (HL : L < 50).
  { apply Z.log2_lt_pow2; [exact Hpos|].
    unfold log_exact, k in Hmax. lia. }
  pose proof (Z.div_mod L 10 ltac:(lia)) as Hdm.
  pose proof (Z.mod_pos_bound L 10 ltac:(lia)) as Hm.
  set (i := L / 10) in *.
  assert (Hi : 0 <= i <= 4) by lia.
  split; [exact Hi|].
  change 1024 with (2 ^ 10).
  rewrite <- !Z.pow_mul_r by lia.
  split.
  - apply Z.le_trans with (2 ^ L); [|exact Hlo].
    apply Z.pow_le_mono_r; lia.
  - apply Z.lt_le_trans with (2 ^ Z.succ L); [exact Hhi|].
    apply Z.pow_le_mono_r; lia.
Qed.

Lemma toFixed1_spec (num den : Z) :
  0 < den ->
  - den <= 2 * (10 * num - toFixed1 num den * den) < den.
Proof.
  intros Hden. unfold toFixed1.
  pose proof (Z.div_mod (20 * num + den) (2 * den) ltac:(lia)) as Hdm.
  pose proof (Z.mod_pos_bound (20 * num + den) (2 * den) ltac:(lia)) as Hm.
  nia.
Qed.

Lemma toFixed1_bounds (num den : Z) :
  0 < den -> den <= num < 1024 * den ->
  10 <= toFixed1 num den <= 10240.
Proof.
  intros Hden Hnum. pose proof (toFixed1_spec num den Hden) as H.
  nia.
Qed.

(** C3, as the function behaves.  For a byte count from 1 up to
    [log_exact] the result is the count scaled by the largest unit
    1024^i (i from 0 to 4: B, KB, MB, GB, TB) that does not exceed it,
    rounded to the nearest tenth, and printed with one decimal place
    unless that decimal is zero, in which case only the whole part is
    printed; 0 is printed as [0 B].  So [formatFileSize 1536] is
    [1.5 KB] and [formatFileSize 1073741824] is [1 GB]. *)
Theorem formatFileSize_scaled (bytes : Z) :
  0 <= bytes <= log_exact ->
  (bytes = 0 -> formatFileSize bytes = "0 B") /\
  (0 < bytes ->
   exists i n u,
     0 <= i <= 4 /\
     k ^ i <= bytes < k ^ (i + 1) /\
     nth_error sizes (Z.to_nat i) = Some u /\
     - k ^ i <= 2 * (10 * bytes - n * k ^ i) < k ^ i /\
     10 <= n <= 10240 /\
     formatFileSize bytes
     = JS.show_Z (n / 10)
         ++ (if n mod 10 =? 0 then "" else "." ++ JS.show_Z (n mod 10))
         ++ " " ++ u) /\
  formatFileSize 0 = "0 B" /\
  formatFileSize 1536 = "1.5 KB" /\
  formatFileSize 1073741824 = "1 GB".
Proof.
  intros Hb. split; [|split; [|repeat split]].
  - intros ->. reflexivity.
  - intros Hpos.
    destruct (floor_log_k_spec bytes ltac:(lia)) as [Hi Hk].
    set (i := floor_log_k bytes) in *.
    assert (Hden : 0 < k ^ i) by (apply Z.pow_pos_nonneg; unfold k; lia).
    exists i, (toFixed1 bytes (k ^ i)), (unit_name i).
    split; [exact Hi|]. split; [exact Hk|]. split.
    { unfold unit_name.
      assert (Hc : i = 0 \/ i = 1 \/ i = 2 \/ i = 3 \/ i = 4) by lia.
      destruct Hc as [-> | [-> | [-> | [-> | ->]]]]; reflexivity. }
    split; [now apply toFixed1_spec|]. split.
    { apply toFixed1_bounds; [exact Hden|].
      replace (k ^ (i + 1)) with (1024 * k ^ i) in Hk; [lia|].
      rewrite Z.pow_add_r by lia. unfold k. lia. }
    unfold formatFileSize.
    replace (bytes =? 0) with false by (symmetry; apply Z.eqb_neq; lia).
    fold i. unfold show_tenths.
    destruct (toFixed1 bytes (k ^ i) mod 10 =? 0).
    + reflexivity.
    + now rewrite !append_assoc.
Qed.

(** Past the last unit the table lookup yields [undefined]. *)
Remark formatFileSize_past_units :
  formatFileSize (k ^ 5) = "1 undefined".
Proof.
  reflexivity.
Qed.

(* ================================================================== *)
(** ** The handlers at particular requests *)
(* ================================================================== *)

(** C1.  The containment check compares strings: a sibling of the root
    whose name extends the name of the root passes it.  With the root
    [/media], the request [../media-evil/secret.txt] resolves to
    [/media-evil/secret.txt], which is not below the root, and the
    stream, download and browse handlers serve it. *)
Theorem sibling_with_root_prefix_is_served :
  Path.resolve Sample.cwd [MEDIA_ROOT Sample.env] = "/media" /\
  fullPath_of Sample.env "../media-evil/secret.txt"
    = "/media-evil/secret.txt" /\
  nested_under "/media" "/media-evil/secret.txt" = false /\
  access_denied Sample.env Sample.cwd "/media-evil/secret.txt" = false /\
  status (Sample.stream "../media-evil/secret.txt" None) = 200 /\
  delivered Sample.disk (Sample.stream "../media-evil/secret.txt" None)
    = Some Sample.secret /\
  status (Sample.download "../media-evil/secret.txt") = 200 /\
  delivered Sample.disk (Sample.download "../media-evil/secret.txt")
    = Some Sample.secret /\
  status (Sample.browse "../media-evil") = 200 /\
  map name_of (listed (Sample.browse "../media-evil")) = ["secret.txt"].
Proof.
  repeat split.
Qed.

(** Against C2: a range that starts past the end of a 1000-byte file is
    answered 206, not 400 or 416. *)
Lemma stream_range_past_end_answers_206 :
  Sample.disk (fullPath_of Sample.env "x.mp4")
    = Fs.Ok (Fs.File Sample.clip Sample.stamp) /\
  Z.of_nat (List.length Sample.clip) = 1000 /\
  range_bounds "bytes=2000-3000" 1000 = (JS.Int 2000, JS.Int 3000) /\
  status (Sample.stream "x.mp4" (Some "bytes=2000-3000")) = 206 /\
  header "Content-Range" (Sample.stream "x.mp4" (Some "bytes=2000-3000"))
    = Some "bytes 2000-3000/1000" /\
  delivered Sample.disk (Sample.stream "x.mp4" (Some "bytes=2000-3000"))
    = Some [] /\
  ~ (status (Sample.stream "x.mp4" (Some "bytes=2000-3000")) = 400 \/
     status (Sample.stream "x.mp4" (Some "bytes=2000-3000")) = 416).
Proof.
  repeat split. intros [H | H]; discriminate H.
Qed.

(** Against C3: one gibibyte is printed without a decimal place. *)
Lemma formatFileSize_drops_zero_decimal :
  formatFileSize 1073741824 = "1 GB" /\
  formatFileSize 1073741824 <> "1.0 GB".
Proof.
  split; [reflexivity | discriminate].
Qed.

(** Against C4: a successful listing has no member [currentPath]. *)
Lemma browse_payload_has_no_currentPath :
  status (Sample.browse "mix") = 200 /\
  (exists j,
     payload (Sample.browse "mix") = Json j /\
     keys j = ["current_path"; "items"] /\
     keys j <> ["currentPath"; "items"] /\
     member "currentPath" j = None).
Proof.
  split; [reflexivity|]. eexists. split; [reflexivity|].
  repeat split. discriminate.
Qed.

(** Against C10: for a directory and a range header whose start exceeds
    its end, no 206 is written; the read stream cannot be created and
    the error middleware answers 500. *)
Lemma stream_directory_bad_range_answers_500 :
  Sample.disk (fullPath_of Sample.env "mix")
    = Fs.Ok (Fs.Directory ["b.mp4"; "A"; "a.txt"] 4096 Sample.stamp) /\
  access_denied Sample.env Sample.cwd (fullPath_of Sample.env "mix")
    = false /\
  JS.truthy "bytes=5-2" = true /\
  range_bounds "bytes=5-2" 4096 = (JS.Int 5, JS.Int 2) /\
  Fs.accepts (JS.Int 5) (JS.Int 2) = false /\
  status (Sample.stream "mix" (Some "bytes=5-2")) = 500 /\
  payload (Sample.stream "mix" (Some "bytes=5-2"))
    = Json (JObject [("error", JString "Internal server error")]) /\
  status (Sample.stream "mix" (Some "bytes=5-2")) <> 206.
Proof.
  repeat split. discriminate.
Qed.

(* ================================================================== *)
(** ** The theorems at the sample deployment *)
(* ================================================================== *)

(** The request of the specification's example: the first hundred bytes
    of a 1000-byte clip. *)
Lemma stream_range_partial_content_witness :
  status (Sample.stream "x.mp4" (Some "bytes=0-99")) = 206 /\
  header "Content-Range" (Sample.stream "x.mp4" (Some "bytes=0-99"))
    = Some "bytes 0-99/1000" /\
  header "Accept-Ranges" (Sample.stream "x.mp4" (Some "bytes=0-99"))
    = Some "bytes" /\
  header "Content-Length" (Sample.stream "x.mp4" (Some "bytes=0-99"))
    = Some "100" /\
  delivered Sample.disk (Sample.stream "x.mp4" (Some "bytes=0-99"))
    = Some (repeat Byte.x2a 100).
Proof.
  destruct (stream_range_partial_content Sample.env Sample.cwd Sample.disk
              Sample.mime_lookup "x.mp4" "bytes=0-99"
              Sample.clip Sample.stamp 0 99)
    as (H1 & H2 & H3 & H4 & H5 & _).
  - reflexivity.
  - reflexivity.
  - vm_compute. discriminate.
  - lia.
  - reflexivity.
  - left. reflexivity.
  - exact (conj H1 (conj H2 (conj H3 (conj H4 H5)))).
Defined.

Lemma stream_whole_file_witness :
  status (Sample.stream "x.mp4" None) = 200 /\
  header "Content-Length" (Sample.stream "x.mp4" None) = Some "1000" /\
  header "Accept-Ranges" (Sample.stream "x.mp4" None) = Some "bytes" /\
  delivered Sample.disk (Sample.stream "x.mp4" None) = Some Sample.clip.
Proof.
  destruct (stream_whole_file Sample.env Sample.cwd Sample.disk
              Sample.mime_lookup "x.mp4" Sample.clip Sample.stamp)
    as (H1 & H2 & H3 & H4 & _).
  - reflexivity.
  - reflexivity.
  - exact (conj H1 (conj H2 (conj H3 H4))).
Defined.

Lemma stream_range_not_validated_witness :
  (status (Sample.stream "x.mp4" (Some "bytes=2000-3000")) = 206 /\
   header "Content-Range" (Sample.stream "x.mp4" (Some "bytes=2000-3000"))
     = Some "bytes 2000-3000/1000" /\
   status (Sample.stream "x.mp4" (Some "bytes=2000-3000")) <> 416) /\
  (status (Sample.stream "x.mp4" (Some ("bytes=0-" ++ nines 400))) = 206 /\
   header "Content-Range"
     (Sample.stream "x.mp4" (Some ("bytes=0-" ++ nines 400)))
     = Some "bytes 0-Infinity/1000") /\
  status (Sample.stream "x.mp4" (Some "bytes=5-2")) = 500.
Proof.
  split; [|split].
  - destruct (stream_range_not_validated Sample.env Sample.cwd Sample.disk
                Sample.mime_lookup "x.mp4" "bytes=2000-3000"
                Sample.clip Sample.stamp)
      as (_ & H1 & _ & _ & _ & _ & _ & H5).
    + reflexivity.
    + reflexivity.
    + reflexivity.
    + destruct (H1 2000 3000) as (Ha & Hb & _).
      * reflexivity.
      * lia.
      * vm_compute. discriminate.
      * exact (conj Ha (conj Hb H5)).
  - destruct (stream_range_not_validated Sample.env Sample.cwd Sample.disk
                Sample.mime_lookup "x.mp4" ("bytes=0-" ++ nines 400)
                Sample.clip Sample.stamp)
      as (_ & _ & H2 & _).
    + reflexivity.
    + reflexivity.
    + reflexivity.
    + destruct (H2 0) as (Ha & Hb & _).
      * vm_compute. reflexivity.
      * vm_compute. split; discriminate.
      * exact (conj Ha Hb).
  - destruct (stream_range_not_validated Sample.env Sample.cwd Sample.disk
                Sample.mime_lookup "x.mp4" "bytes=5-2"
                Sample.clip Sample.stamp)
      as (_ & _ & _ & _ & H4 & _).
    + reflexivity.
    + reflexivity.
    + reflexivity.
    + destruct H4 as [Ha _]; [reflexivity | exact Ha].
Defined.

Lemma stream_directory_not_rejected_witness :
  status (Sample.stream "mix" None) = 200 /\
  header "Content-Length" (Sample.stream "mix" None) = Some "4096" /\
  status (Sample.stream "mix" (Some "bytes=0-")) = 206 /\
  header "Content-Range" (Sample.stream "mix" (Some "bytes=0-"))
    = Some "bytes 0-4095/4096" /\
  status (Sample.stream "mix" (Some "bytes=5-2")) = 500.
Proof.
  destruct (stream_directory_not_rejected Sample.env Sample.cwd Sample.disk
              Sample.mime_lookup "mix" ["b.mp4"; "A"; "a.txt"] 4096
              Sample.stamp)
    as (H1 & H2 & _ & _).
  - reflexivity.
  - reflexivity.
  - destruct (H1 None) as (Ha & Hb & _); [now left|].
    destruct (H2 "bytes=0-" eq_refl) as (_ & Hyes & _).
    destruct (Hyes eq_refl) as (Hc & Hd & _).
    destruct (H2 "bytes=5-2" eq_refl) as (_ & _ & Hno).
    destruct (Hno eq_refl) as (He & _).
    exact (conj Ha (conj Hb (conj Hc (conj Hd He)))).
Defined.

Lemma formatFileSize_scaled_witness :
  0 <= 1536 <= log_exact /\
  formatFileSize 1536 = "1.5 KB" /\
  formatFileSize 1073741824 = "1 GB".
Proof.
  split.
  - vm_compute. split; discriminate.
  - destruct (formatFileSize_scaled 1536) as (_ & _ & _ & H1 & H2).
    + vm_compute. split; discriminate.
    + split; [exact H1 | exact H2].
Defined.

Lemma browse_payload_members_witness :
  exists j items,
    payload (Sample.browse "mix") = Json j /\
    keys j = ["current_path"; "items"] /\
    member "items" j = Some (JArray items) /\
    member "current_path" j = Some (JString "mix").
Proof.
  destruct (browse_payload_members Sample.env Sample.cwd Sample.disk
              Sample.mime_lookup Sample.localeCompare "mix")
    as (j & items & H1 & H2 & H3 & _ & H5).
  - reflexivity.
  - exists j, items.
    refine (conj H1 (conj H2 (conj H3 (H5 _)))). discriminate.
Defined.

(** The listing example of the specification. *)
Lemma listing_folders_first_then_by_name_witness :
  status (Sample.browse "mix") = 200 /\
  map name_of (listed (Sample.browse "mix")) = ["A"; "a.txt"; "b.mp4"] /\
  exists folders files,
    listed (Sample.browse "mix") = map item_json (folders ++ files)%list /\
    Forall (fun it => type it = "folder") folders /\
    Forall (fun it => type it <> "folder") files.
Proof.
  destruct (listing_folders_first_then_by_name Sample.env Sample.cwd
              Sample.disk Sample.mime_lookup Sample.localeCompare
              sample_localeCompare_total sample_localeCompare_trans "mix")
    as [H1 H2].
  split; [reflexivity|]. split.
  - apply H2. reflexivity.
  - destruct H1 as (folders & files & Ha & Hb & Hc & _); [reflexivity|].
    exists folders, files. exact (conj Ha (conj Hb Hc)).
Defined.

(** The default root in a process started in [/srv/app]. *)
Lemma relative_root_denies_every_request_witness :
  media_root None = "./media" /\
  status (browse None Sample.cwd Sample.disk Sample.mime_lookup
            Sample.localeCompare "x.mp4") = 403 /\
  status (stream None Sample.cwd Sample.disk Sample.mime_lookup
            "x.mp4" None) = 403 /\
  status (download None Sample.cwd Sample.disk Sample.contentDisposition
            Sample.dirname "x.mp4" None) = 403.
Proof.
  destruct (relative_root_denies_every_request None Sample.cwd Sample.disk
              Sample.mime_lookup Sample.localeCompare
              Sample.contentDisposition Sample.dirname "x.mp4" None)
    as (H0 & _ & H1 & H2 & H3 & _).
  - reflexivity.
  - reflexivity.
  - rewrite H1, H2, H3. exact (conj H0 (conj eq_refl (conj eq_refl eq_refl))).
Defined.

(* ================================================================== *)
(** ** Canonical paths *)
(* ================================================================== *)

Lemma append_empty_r (s : string) : s ++ "" = s.
Proof.
  induction s as [|c s IH]; simpl; congruence.
Qed.

Lemma prefix_append (a b : string) : String.prefix a (a ++ b) = true.
Proof.
  induction a as [|c a IH]; simpl.
  - now destruct b.
  - destruct (ascii_dec c c); [exact IH | contradiction].
Qed.

Lemma prefix_trans (a b c : string) :
  String.prefix a b = true -> String.prefix b c = true ->
  String.prefix a c = true.
Proof.
  revert b c. induction a as [|x a IH]; intros b c Hab Hbc.
  - now destruct c.
  - destruct b as [|y b]; [discriminate|].
    destruct c as [|z c]; [discriminate|].
    simpl in *.
    destruct (ascii_dec x y) as [->|]; [|discriminate].
    destruct (ascii_dec y z) as [->|]; [|discriminate].
    now apply IH with b.
Qed.

Lemma split_pieces_free (c : ascii) (p : string) :
  Forall (fun s => free_of c s = true) (JS.split c p).
Proof.
  induction p as [|x p IH]; simpl.
  - repeat constructor.
  - destruct (Ascii.eqb x c) eqn:E.
    + constructor; [reflexivity | exact IH].
    + destruct (JS.split c p) as [|piece pieces].
      * repeat constructor. simpl. now rewrite E.
      * inversion IH; subst.
        constructor; [simpl; now rewrite E | assumption].
Qed.

(** Splitting what was glued gives the pieces back. *)
Lemma split_concat (segs : list string) :
  segs <> [] ->
  Forall (fun s => free_of Path.sep s = true) segs ->
  JS.split Path.sep (String.concat "/" segs) = segs.
Proof.
  induction segs as [|s segs IH]; [congruence|].
  intros _ H. inversion H as [|? ? Hs Hrest]; subst.
  destruct segs as [|s' segs].
  - simpl. now apply split_free.
  - change (String.concat "/" (s :: s' :: segs))
      with (s ++ String Path.sep (String.concat "/" (s' :: segs))).
    rewrite split_at_first by exact Hs.
    now rewrite IH.
Qed.

Lemma concat_app (a b : list string) :
  a <> [] -> b <> [] ->
  String.concat "/" (a ++ b)
  = String.concat "/" a ++ "/" ++ String.concat "/" b.
Proof.
  intros Ha Hb. induction a as [|s a IH]; [congruence|].
  destruct a as [|s' a].
  - simpl. destruct b; [congruence | reflexivity].
  - change (String.concat "/" ((s :: s' :: a) ++ b))
      with (s ++ "/" ++ String.concat "/" ((s' :: a) ++ b)).
    rewrite IH by discriminate.
    change (String.concat "/" (s :: s' :: a))
      with (s ++ "/" ++ String.concat "/" (s' :: a)).
    now rewrite !append_assoc.
Qed.

Lemma file_name_kept (s : string) :
  file_name s = true -> kept s = true /\ (s =? "..")%string = false.
Proof.
  intros (Ht & _ & Hdot & Hdots)%file_name_inv.
  unfold kept. now rewrite (truthy_eqb _ Ht), Hdot, Hdots.
Qed.

Lemma filter_kept_file_names (segs : list string) :
  Forall (fun s => file_name s = true) segs -> filter kept segs = segs.
Proof.
  induction 1 as [|s segs Hs _ IH]; simpl; [reflexivity|].
  destruct (file_name_kept _ Hs) as [-> _]. now rewrite IH.
Qed.

(** Without [..] normalisation only drops the empty and [.] segments. *)
Lemma normalize_segments_flat (allow : bool) (segs : list string) :
  forall acc,
    forallb (fun seg => negb (seg =? "..")%string) segs = true ->
    Path.normalize_segments allow acc segs
    = (rev acc ++ filter kept segs)%list.
Proof.
  induction segs as [|seg segs IH]; intros acc H; simpl.
  - now rewrite app_nil_r.
  - simpl in H. apply andb_prop in H as [Hseg Hrest].
    apply negb_true_iff in Hseg. unfold kept at 1.
    destruct ((seg =? "")%string || (seg =? ".")%string); cbn [negb].
    + now apply IH.
    + rewrite Hseg, (IH _ Hrest). simpl. now rewrite <- app_assoc.
Qed.

(** Normalising an absolute path leaves file names only. *)
Lemma normalize_segments_file_names (segs : list string) :
  forall acc,
    Forall (fun s => file_name s = true) acc ->
    Forall (fun s => free_of Path.sep s = true) segs ->
    Forall (fun s => file_name s = true)
      (Path.normalize_segments false acc segs).
Proof.
  induction segs as [|seg segs IH]; intros acc Hacc Hsegs; simpl.
  - now apply Forall_rev.
  - inversion Hsegs as [|? ? Hseg Hrest]; subst.
    destruct ((seg =? "")%string || (seg =? ".")%string) eqn:E1.
    { now apply IH. }
    apply orb_false_elim in E1 as [E1 E1'].
    destruct (seg =? "..")%string eqn:E2.
    + destruct acc as [|top acc'].
      * now apply IH.
      * inversion Hacc; subst.
        destruct (top =? "..")%string; apply IH; auto.
    + apply IH; [|exact Hrest].
      constructor; [|exact Hacc].
      unfold file_name, JS.truthy. now rewrite E1, E1', E2, Hseg.
Qed.

Lemma root_segments_file_names (env : option string) :
  Forall (fun s => file_name s = true) (root_segments env).
Proof.
  apply normalize_segments_file_names; [constructor|].
  apply split_pieces_free.
Qed.

Lemma request_segments_file_names (requestPath : string) :
  stays_below requestPath = true ->
  Forall (fun s => file_name s = true) (request_segments requestPath).
Proof.
  unfold stays_below, request_segments. intros H.
  pose proof (split_pieces_free Path.sep requestPath) as Hfree.
  rewrite forallb_forall in H. rewrite Forall_forall in *.
  intros s Hs. apply filter_In in Hs as [Hin Hk].
  unfold kept in Hk. apply negb_true_iff, orb_false_elim in Hk as [H1 H2].
  specialize (H s Hin). apply negb_true_iff in H.
  unfold file_name, JS.truthy. now rewrite H1, H2, H, (Hfree s Hin).
Qed.

Lemma concat_file_names_truthy (segs : list string) :
  segs <> [] -> Forall (fun s => file_name s = true) segs ->
  JS.truthy (String.concat "/" segs) = true.
Proof.
  destruct segs as [|s segs]; [congruence|].
  intros _ H. apply Forall_inv in H.
  apply file_name_inv in H as [Ht _].
  destruct segs; [exact Ht | now apply truthy_append].
Qed.

(** The normal form of an absolute path. *)
Lemma normalize_absolute (p : string) :
  Path.isAbsolute p = true ->
  Path.normalize p
  = abs_path (Path.normalize_segments false [] (JS.split Path.sep p))
      (Path.ends_with_sep p).
Proof.
  intros Habs. unfold Path.normalize, Path.normalizeString.
  destruct p as [|c p]; [discriminate|].
  cbn [String.eqb]. rewrite Habs. cbn [negb].
  set (segs := Path.normalize_segments false [] _).
  assert (Hsegs : Forall (fun s => file_name s = true) segs).
  { apply normalize_segments_file_names; [constructor|].
    apply split_pieces_free. }
  destruct segs as [|s segs'] eqn:E; [reflexivity|].
  rewrite (truthy_eqb _ (concat_file_names_truthy (s :: segs')
                           ltac:(discriminate) Hsegs)).
  unfold abs_path.
  destruct (Path.ends_with_sep (String c p)); [reflexivity|].
  now rewrite append_empty_r.
Qed.

Lemma split_abs_path (segs : list string) (t : bool) :
  Forall (fun s => file_name s = true) segs ->
  filter kept (JS.split Path.sep (abs_path segs t)) = segs /\
  forallb (fun seg => negb (seg =? "..")%string)
    (JS.split Path.sep (abs_path segs t)) = true.
Proof.
  intros Hsegs. destruct segs as [|s segs']; [split; reflexivity|].
  set (segs := s :: segs') in *.
  assert (Hfree : Forall (fun s => free_of Path.sep s = true) segs).
  { eapply Forall_impl; [|exact Hsegs]. intros a Ha.
    now apply file_name_inv in Ha. }
  assert (Hnd : forallb (fun seg => negb (seg =? "..")%string) segs = true).
  { apply forallb_forall. intros a Ha. rewrite Forall_forall in Hsegs.
    apply negb_true_iff. now apply file_name_kept, Hsegs. }
  assert (Hsplit : JS.split Path.sep (abs_path segs t)
                   = ((EmptyString :: segs)
                        ++ (if t then [EmptyString] else []))%list).
  { unfold abs_path, segs. fold segs.
    change ("/" ++ String.concat "/" segs ++ (if t then "/" else ""))
      with (String Path.sep
              (String.concat "/" segs ++ (if t then "/" else ""))).
    destruct t.
    - change (String Path.sep (String.concat "/" segs ++ "/"))
        with ("" ++ String Path.sep
                (String.concat "/" segs ++ String Path.sep "")).
      rewrite split_append, split_append, split_concat by
        (auto; discriminate).
      reflexivity.
    - rewrite append_empty_r.
      change (String Path.sep (String.concat "/" segs))
        with ("" ++ String Path.sep (String.concat "/" segs)).
      rewrite split_append, split_concat by (auto; discriminate).
      now rewrite app_nil_r. }
  rewrite Hsplit. split.
  - rewrite filter_app. cbn [filter kept String.eqb orb negb].
    rewrite (filter_kept_file_names _ Hsegs).
    destruct t; cbn; now rewrite app_nil_r.
  - rewrite forallb_app. cbn [forallb String.eqb negb andb].
    rewrite Hnd. now destruct t.
Qed.

(** Joining a file name onto an absolute normal form appends it. *)
Lemma join_abs_path_file (segs : list string) (t : bool) (file : string) :
  Forall (fun s => file_name s = true) segs ->
  file_name file = true ->
  Path.join [abs_path segs t; file] = abs_path (segs ++ [file]) false.
Proof.
  intros Hsegs Hfile.
  destruct (file_name_inv _ Hfile) as (Ht & Hfree & _).
  assert (Habs : Path.isAbsolute (abs_path segs t) = true)
    by (destruct segs; reflexivity).
  assert (Htr : JS.truthy (abs_path segs t) = true)
    by (destruct segs; reflexivity).
  unfold Path.join. cbn [Path.glue].
  rewrite (truthy_eqb _ Htr), (truthy_eqb _ Ht).
  change (abs_path segs t ++ "/" ++ file)
    with (abs_path segs t ++ String Path.sep file).
  rewrite normalize_absolute by now rewrite isAbsolute_append.
  rewrite (ends_with_sep_file _ _ Hfile).
  rewrite split_append, (split_free _ _ Hfree).
  destruct (split_abs_path segs t Hsegs) as [Hk Hnd].
  rewrite normalize_segments_flat.
  - rewrite filter_app, Hk. cbn [filter rev app].
    now destruct (file_name_kept _ Hfile) as [-> _].
  - rewrite forallb_app, Hnd. cbn.
    now destruct (file_name_kept _ Hfile) as [_ ->].
Qed.

Lemma ends_with_sep_after_sep (a b : string) :
  JS.truthy b = true ->
  Path.ends_with_sep (a ++ String Path.sep b) = Path.ends_with_sep b.
Proof.
  intros Hb. rewrite ends_with_sep_append by reflexivity.
  destruct b; [discriminate | reflexivity].
Qed.

(** Where a request that does not climb resolves to: the segments of
    the root followed by those of the request. *)
Lemma fullPath_canonical (env : option string) (requestPath : string) :
  Path.isAbsolute (media_root env) = true ->
  stays_below requestPath = true ->
  fullPath_of env requestPath
  = abs_path (root_segments env ++ request_segments requestPath)
      (if JS.truthy requestPath then Path.ends_with_sep requestPath
       else Path.ends_with_sep (media_root env)).
Proof.
  intros Habs Hbelow. unfold fullPath_of, MEDIA_ROOT, Path.join.
  cbn [Path.glue].
  rewrite (truthy_eqb _ (media_root_truthy env)).
  destruct (requestPath =? "")%string eqn:E.
  - apply String.eqb_eq in E. subst requestPath.
    rewrite normalize_absolute by exact Habs.
    unfold request_segments. cbn. now rewrite app_nil_r.
  - assert (Ht : JS.truthy requestPath = true)
      by (unfold JS.truthy; now rewrite E).
    rewrite Ht.
    change (media_root env ++ "/" ++ requestPath)
      with (media_root env ++ String Path.sep requestPath).
    rewrite normalize_absolute
      by now rewrite isAbsolute_append by apply media_root_truthy.
    rewrite (ends_with_sep_after_sep _ _ Ht).
    rewrite split_append, normalize_segments_append.
    fold (root_segments env).
    rewrite normalize_segments_flat by exact Hbelow.
    now rewrite rev_involutive.
Qed.

Lemma resolve_root_canonical (env : option string) (cwd : string) :
  Path.isAbsolute (media_root env) = true ->
  Path.resolve cwd [MEDIA_ROOT env] = abs_path (root_segments env) false.
Proof.
  intros Habs. unfold Path.resolve, MEDIA_ROOT. cbn [rev app Path.resolve_loop].
  rewrite (truthy_eqb _ (media_root_truthy env)), Habs.
  unfold Path.normalizeString. cbn [negb].
  change (media_root env ++ "/" ++ "")
    with (media_root env ++ String Path.sep "").
  rewrite split_append, normalize_segments_append.
  fold (root_segments env). cbn. rewrite rev_involutive.
  destruct (root_segments env); [reflexivity|].
  unfold abs_path. now rewrite append_empty_r.
Qed.

Lemma abs_path_extends (a b : list string) (t : bool) :
  String.prefix (abs_path a false) (abs_path (a ++ b) t) = true.
Proof.
  destruct a as [|s a].
  - destruct b as [|s b]; [reflexivity|].
    apply (prefix_append "/").
  - destruct b as [|s' b].
    + rewrite app_nil_r. unfold abs_path. rewrite append_empty_r.
      replace ("/" ++ String.concat "/" (s :: a) ++ (if t then "/" else ""))
        with (("/" ++ String.concat "/" (s :: a)) ++ (if t then "/" else ""))
        by now rewrite append_assoc.
      apply prefix_append.
    + unfold abs_path at 1. rewrite append_empty_r.
      assert (E : abs_path ((s :: a) ++ s' :: b) t
                  = ("/" ++ String.concat "/" (s :: a))
                      ++ ("/" ++ String.concat "/" (s' :: b)
                            ++ (if t then "/" else ""))).
      { unfold abs_path. cbn [app].
        change (s :: (a ++ s' :: b)%list) with ((s :: a) ++ s' :: b)%list.
        rewrite concat_app by discriminate.
        now rewrite !append_assoc. }
      rewrite E. apply prefix_append.
Qed.

(** X1.  With an absolute media root no request is refused unless it
    has a [..] segment: the request resolves to the segments of the
    normalised root followed by its own non-empty, non-dot segments,
    and that path begins with the resolved root. *)
Theorem request_without_dotdot_is_admitted
    (env : option string) (cwd requestPath : string) :
  Path.isAbsolute (media_root env) = true ->
  stays_below requestPath = true ->
  access_denied env cwd (fullPath_of env requestPath) = false /\
  Path.resolve cwd [MEDIA_ROOT env] = abs_path (root_segments env) false /\
  fullPath_of env requestPath
  = abs_path (root_segments env ++ request_segments requestPath)
      (if JS.truthy requestPath then Path.ends_with_sep requestPath
       else Path.ends_with_sep (media_root env)).
Proof.
  intros Habs Hbelow. split; [|split].
  - unfold access_denied, JS.startsWith.
    rewrite resolve_root_canonical, fullPath_canonical by assumption.
    now rewrite abs_path_extends.
  - now apply resolve_root_canonical.
  - now apply fullPath_canonical.
Qed.

(** The root-relative path the listing gives a child. *)
Lemma relativePath_canonical (requestPath item : string) :
  stays_below requestPath = true -> file_name item = true ->
  Path.join ["/"; requestPath; item]
  = abs_path (request_segments requestPath ++ [item]) false.
Proof.
  intros Hbelow Hfile.
  destruct (file_name_inv _ Hfile) as (Ht & Hfree & _).
  destruct (file_name_kept _ Hfile) as [Hk Hnd].
  unfold Path.join. cbn [Path.glue String.eqb].
  rewrite (truthy_eqb _ Ht).
  destruct (requestPath =? "")%string eqn:E.
  - apply String.eqb_eq in E. subst requestPath.
    change ("/" ++ "/" ++ item) with ("/" ++ String Path.sep item).
    rewrite normalize_absolute by reflexivity.
    rewrite (ends_with_sep_file _ _ Hfile).
    rewrite split_append, (split_free _ _ Hfree).
    cbn. now rewrite (truthy_eqb _ Ht), (proj1 (proj2 (proj2 (file_name_inv _ Hfile)))), Hnd.
  - change ("/" ++ "/" ++ requestPath ++ "/" ++ item)
      with (("/" ++ String Path.sep requestPath) ++ String Path.sep item).
    rewrite normalize_absolute by reflexivity.
    rewrite (ends_with_sep_file _ _ Hfile).
    rewrite split_append, split_append, (split_free _ _ Hfree).
    rewrite normalize_segments_flat.
    + rewrite !filter_app. cbn [filter JS.split kept String.eqb orb negb rev app].
      now rewrite Hk.
    + rewrite !forallb_app. unfold stays_below in Hbelow.
      rewrite Hbelow. cbn. now rewrite Hnd.
Qed.

Lemma drop_abs_path (segs : list string) :
  segs <> [] -> JS.drop 1 (abs_path segs false) = String.concat "/" segs.
Proof.
  destruct segs; [congruence|]. intros _.
  unfold abs_path. cbn [JS.drop append]. now rewrite append_empty_r.
Qed.

Lemma concat_file_names (segs : list string) :
  segs <> [] -> Forall (fun s => file_name s = true) segs ->
  let p := String.concat "/" segs in
  JS.truthy p = true /\ Path.ends_with_sep p = false /\
  stays_below p = true /\ request_segments p = segs.
Proof.
  intros Hne Hsegs p.
  assert (Hfree : Forall (fun s => free_of Path.sep s = true) segs).
  { eapply Forall_impl; [|exact Hsegs]. intros a Ha.
    now apply file_name_inv in Ha. }
  assert (Hsplit : JS.split Path.sep p = segs) by now apply split_concat.
  split; [now apply concat_file_names_truthy|]. split; [|split].
  - subst p. destruct (exists_last Hne) as (front & file & ->).
    apply Forall_app in Hsegs as [_ Hfile]. apply Forall_inv in Hfile.
    rewrite concat_file. destruct front.
    + destruct (file_name_inv _ Hfile) as (Ht & Hf & _).
      now apply ends_with_sep_free.
    + now apply ends_with_sep_file.
  - unfold stays_below. rewrite Hsplit. apply forallb_forall.
    intros a Ha. rewrite Forall_forall in Hsegs.
    apply negb_true_iff. now apply file_name_kept, Hsegs.
  - unfold request_segments. rewrite Hsplit.
    now apply filter_kept_file_names.
Qed.

(** The path of a listed child, sent back without its leading
    separator, resolves to the path that was statted for the child. *)
Lemma child_path_round_trip
    (env : option string) (cwd requestPath item : string) :
  Path.isAbsolute (media_root env) = true ->
  stays_below requestPath = true ->
  file_name item = true ->
  fullPath_of env (JS.drop 1 (Path.join ["/"; requestPath; item]))
    = Path.join [fullPath_of env requestPath; item] /\
  access_denied env cwd
    (fullPath_of env (JS.drop 1 (Path.join ["/"; requestPath; item])))
    = false.
Proof.
  intros Habs Hbelow Hfile.
  pose proof (request_segments_file_names _ Hbelow) as Hreq.
  set (segs := (request_segments requestPath ++ [item])%list).
  assert (Hne : segs <> []) by (subst segs; now destruct (request_segments _)).
  assert (Hsegs : Forall (fun s => file_name s = true) segs)
    by (apply Forall_app; split; [exact Hreq | now constructor]).
  destruct (concat_file_names segs Hne Hsegs) as (Ht & Hend & Hb & Hrs).
  rewrite relativePath_canonical by assumption. fold segs.
  rewrite drop_abs_path by exact Hne.
  split.
  - rewrite (fullPath_canonical env _ Habs Hb), Ht, Hend, Hrs.
    rewrite (fullPath_canonical env _ Habs Hbelow).
    rewrite join_abs_path_file;
      [|apply Forall_app; split; [apply root_segments_file_names | exact Hreq]
       |exact Hfile].
    subst segs. now rewrite app_assoc.
  - unfold access_denied, JS.startsWith.
    rewrite resolve_root_canonical, fullPath_canonical by assumption.
    now rewrite abs_path_extends.
Qed.

(** X2.  The path the listing reports for a child leads back to that
    child: sent as the path of a later request (without its leading
    separator) it resolves to the very path whose stat described the
    child, and it is admitted. *)
Theorem listed_path_leads_to_child
    (env : option string) (cwd requestPath item : string) :
  Path.isAbsolute (media_root env) = true ->
  stays_below requestPath = true ->
  file_name item = true ->
  Path.join ["/"; requestPath; item]
    = "/" ++ String.concat "/" (request_segments requestPath ++ [item]) /\
  fullPath_of env (JS.drop 1 (Path.join ["/"; requestPath; item]))
    = Path.join [fullPath_of env requestPath; item] /\
  stays_below (JS.drop 1 (Path.join ["/"; requestPath; item])) = true /\
  access_denied env cwd
    (fullPath_of env (JS.drop 1 (Path.join ["/"; requestPath; item])))
    = false.
Proof.
  intros Habs Hbelow Hfile.
  destruct (child_path_round_trip env cwd requestPath item Habs Hbelow Hfile)
    as [Hsame Hadmit].
  pose proof (request_segments_file_names _ Hbelow) as Hreq.
  set (segs := (request_segments requestPath ++ [item])%list).
  assert (Hne : segs <> []) by (subst segs; now destruct (request_segments _)).
  assert (Hsegs : Forall (fun s => file_name s = true) segs)
    by (apply Forall_app; split; [exact Hreq | now constructor]).
  destruct (concat_file_names segs Hne Hsegs) as (_ & _ & Hb & _).
  split; [|split; [exact Hsame|split; [|exact Hadmit]]].
  - rewrite relativePath_canonical by assumption. fold segs.
    unfold abs_path. destruct segs; [congruence|].
    now rewrite append_empty_r.
  - rewrite relativePath_canonical by assumption. fold segs.
    now rewrite drop_abs_path.
Qed.

(* ================================================================== *)
(** ** What a listing says about the directory *)
(* ================================================================== *)

Lemma file_type_values (mime_lookup : string -> option string)
    (item : string) :
  In (file_type mime_lookup item) ["video"; "image"; "audio"; "file"].
Proof.
  unfold file_type. destruct (mime_lookup item) as [m|]; simpl; auto.
  destruct (JS.startsWith m "video/"); simpl; auto.
  destruct (JS.startsWith m "image/"); simpl; auto.
  destruct (JS.startsWith m "audio/"); simpl; auto.
Qed.

Lemma file_type_not_folder (mime_lookup : string -> option string)
    (item : string) :
  file_type mime_lookup item <> "folder".
Proof.
  pose proof (file_type_values mime_lookup item) as H. simpl in H.
  intros E. rewrite E in H.
  destruct H as [H|[H|[H|[H|[]]]]]; discriminate H.
Qed.

Lemma describe_spec (fs : Fs.filesystem)
    (mime_lookup : string -> option string)
    (fullPath requestPath item : string) (it : Item) :
  describe fs mime_lookup fullPath requestPath item = Fs.Ok it ->
  name it = item /\
  path it = Path.join ["/"; requestPath; item] /\
  ((exists children dsize mtime,
      fs (Path.join [fullPath; item])
        = Fs.Ok (Fs.Directory children dsize mtime) /\
      type it = "folder" /\ size it = None /\
      modified it = date_of mtime) \/
   (exists content mtime,
      fs (Path.join [fullPath; item]) = Fs.Ok (Fs.File content mtime) /\
      type it = file_type mime_lookup item /\
      size it = Some (formatFileSize (Z.of_nat (List.length content))) /\
      modified it = date_of mtime)).
Proof.
  unfold describe, Fs.stat.
  destruct (fs (Path.join [fullPath; item])) as [n|e]; cbn [Fs.bind];
    [|discriminate].
  destruct n as [content mtime|children dsize mtime];
    cbn [Fs.stats_of Fs.isDirectory Fs.size Fs.mtime];
    intros H; injection H as <-; cbn [name path type size modified].
  - split; [reflexivity|]. split; [reflexivity|]. right.
    exists content, mtime. repeat split.
  - split; [reflexivity|]. split; [reflexivity|]. left.
    exists children, dsize, mtime. repeat split.
Qed.

Lemma mapM_Forall2 {A B : Type} (f : A -> Fs.result B) (l : list A) :
  forall l', Fs.mapM f l = Fs.Ok l' -> Forall2 (fun x y => f x = Fs.Ok y) l l'.
Proof.
  induction l as [|x l IH]; simpl; intros l' H.
  - injection H as <-. constructor.
  - destruct (f x) as [y|e] eqn:E; cbn [Fs.bind] in H; [|discriminate].
    destruct (Fs.mapM f l) as [ys|e]; cbn [Fs.bind] in H; [|discriminate].
    injection H as <-. constructor; auto.
Qed.

Lemma join_from_root_absolute (rest : list string) :
  Path.isAbsolute (Path.join ("/" :: rest)) = true.
Proof.
  unfold Path.join. cbn [Path.glue String.eqb].
  destruct (Path.glue rest) as [r|].
  - rewrite normalize_absolute by reflexivity.
    now destruct (Path.normalize_segments _ _ _).
  - reflexivity.
Qed.

Lemma browse_items (env : option string) (cwd : string)
    (fs : Fs.filesystem) (mime_lookup : string -> option string)
    (localeCompare : string -> string -> Z) (requestPath : string) :
  status (browse env cwd fs mime_lookup localeCompare requestPath) = 200 ->
  exists children dsize mtime items,
    access_denied env cwd (fullPath_of env requestPath) = false /\
    fs (fullPath_of env requestPath)
      = Fs.Ok (Fs.Directory children dsize mtime) /\
    Permutation children (map name items) /\
    listed (browse env cwd fs mime_lookup localeCompare requestPath)
      = map item_json items /\
    Forall (describes fs mime_lookup (fullPath_of env requestPath)
              requestPath) items.
Proof.
  intros H200.
  destruct (browse_ok _ _ _ _ _ _ H200)
    as (children & itemsWithStats & Hdir & Hmap & Hresp).
  assert (Hin : access_denied env cwd (fullPath_of env requestPath) = false).
  { unfold browse in H200.
    destruct (access_denied env cwd (fullPath_of env requestPath));
      [discriminate | reflexivity]. }
  unfold Fs.readdir in Hdir.
  destruct (fs (fullPath_of env requestPath)) as [n|e] eqn:Hfs;
    cbn [Fs.bind] in Hdir; [|discriminate].
  destruct n as [content mtime|children' dsize mtime]; [discriminate|].
  injection Hdir as ->.
  exists children, dsize, mtime,
    (sort (compare_items localeCompare) itemsWithStats).
  split; [exact Hin|]. split; [reflexivity|]. split; [|split].
  - rewrite <- (mapM_describe_names _ _ _ _ _ _ Hmap).
    apply Permutation_map, sort_perm.
  - rewrite Hresp. reflexivity.
  - eapply Permutation_Forall; [apply sort_perm|].
    pose proof (mapM_Forall2 _ _ _ Hmap) as H2.
    clear - H2. induction H2 as [|c it cs its Hc _ IH]; constructor; auto.
    unfold describes.
    destruct (describe_spec _ _ _ _ _ _ Hc) as [-> _]. exact Hc.
Qed.

(** X3.  Every item of a successful listing names a child of the
    directory and carries the root-relative path [/request/name], which
    is absolute.  An item is typed [folder] exactly when the child is a
    directory, and exactly then its size is null; otherwise the type is
    one of video, image, audio, file and the size is the formatted
    length of the file. *)
Theorem listing_items_describe_children
    (env : option string) (cwd : string) (fs : Fs.filesystem)
    (mime_lookup : string -> option string)
    (localeCompare : string -> string -> Z) (requestPath : string) :
  status (browse env cwd fs mime_lookup localeCompare requestPath) = 200 ->
  exists items,
    listed (browse env cwd fs mime_lookup localeCompare requestPath)
      = map item_json items /\
    Forall (fun it =>
      path it = Path.join ["/"; requestPath; name it] /\
      Path.isAbsolute (path it) = true /\
      (type it = "folder" <-> size it = None) /\
      (type it = "folder" ->
       exists children dsize mtime,
         fs (Path.join [fullPath_of env requestPath; name it])
           = Fs.Ok (Fs.Directory children dsize mtime)) /\
      (type it <> "folder" ->
       In (type it) ["video"; "image"; "audio"; "file"] /\
       exists content mtime,
         fs (Path.join [fullPath_of env requestPath; name it])
           = Fs.Ok (Fs.File content mtime) /\
         size it
           = Some (formatFileSize (Z.of_nat (List.length content)))))
      items.
Proof.
  intros H200.
  destruct (browse_items _ _ _ _ _ _ H200)
    as (children & dsize & mtime & items & _ & _ & _ & Hlisted & Hitems).
  exists items. split; [exact Hlisted|].
  eapply Forall_impl; [|exact Hitems].
  intros it Hit. unfold describes in Hit.
  destruct (describe_spec _ _ _ _ _ _ Hit) as (_ & Hpath & Hkind).
  split; [exact Hpath|]. split.
  { rewrite Hpath. apply join_from_root_absolute. }
  destruct Hkind as [(ch & ds & mt & Hfs & Ht & Hs & _)
                    |(content & mt & Hfs & Ht & Hs & _)].
  - split; [now split|]. split.
    + intros _. now exists ch, ds, mt.
    + intros Hn. contradiction.
  - assert (Hnf : type it <> "folder")
      by (rewrite Ht; apply file_type_not_folder).
    split; [split; [contradiction | congruence]|]. split.
    + contradiction.
    + intros _. split.
      * rewrite Ht. apply file_type_values.
      * now exists content, mt.
Qed.

(** X4.  With an absolute media root and a file system whose
    directories list file names, every file item of a successful
    listing (for a request without [..]) can be fetched by the path the
    listing gave it: a stream request for that path without a range
    header is answered 200 with [Content-Length] equal to the size of
    the file and delivers the bytes of the very file whose size was
    listed; the path of a folder item names that directory. *)
Theorem listed_items_can_be_requested
    (env : option string) (cwd : string) (fs : Fs.filesystem)
    (mime_lookup : string -> option string)
    (localeCompare : string -> string -> Z) (requestPath : string) :
  Path.isAbsolute (media_root env) = true ->
  stays_below requestPath = true ->
  lists_file_names fs ->
  status (browse env cwd fs mime_lookup localeCompare requestPath) = 200 ->
  exists items,
    listed (browse env cwd fs mime_lookup localeCompare requestPath)
      = map item_json items /\
    Forall (fun it =>
      (type it = "folder" ->
       access_denied env cwd (fullPath_of env (JS.drop 1 (path it)))
         = false /\
       exists children dsize mtime,
         fs (fullPath_of env (JS.drop 1 (path it)))
           = Fs.Ok (Fs.Directory children dsize mtime)) /\
      (type it <> "folder" ->
       exists content,
         size it
           = Some (formatFileSize (Z.of_nat (List.length content))) /\
         status (stream env cwd fs mime_lookup (JS.drop 1 (path it)) None)
           = 200 /\
         header "Content-Length"
           (stream env cwd fs mime_lookup (JS.drop 1 (path it)) None)
           = Some (JS.show_Z (Z.of_nat (List.length content))) /\
         delivered fs
           (stream env cwd fs mime_lookup (JS.drop 1 (path it)) None)
           = Some content))
      items.
Proof.
  intros Habs Hbelow Hnames H200.
  destruct (browse_items _ _ _ _ _ _ H200)
    as (children & dsize & mtime & items & _ & Hdir & Hperm & Hlisted
        & Hitems).
  exists items. split; [exact Hlisted|].
  assert (Hfiles : Forall (fun it => file_name (name it) = true) items).
  { apply Forall_map with (f := name) (P := fun c => file_name c = true).
    eapply Permutation_Forall; [exact Hperm|].
    exact (Hnames _ _ _ _ Hdir). }
  rewrite Forall_forall in *. intros it Hin.
  specialize (Hitems it Hin). specialize (Hfiles it Hin).
  unfold describes in Hitems.
  destruct (describe_spec _ _ _ _ _ _ Hitems) as (_ & Hpath & Hkind).
  destruct (child_path_round_trip env cwd requestPath (name it)
              Habs Hbelow Hfiles) as (Hsame & Hadmit).
  rewrite Hpath.
  destruct Hkind as [(ch & ds & mt & Hfs & Ht & _)
                    |(content & mt & Hfs & Ht & Hs & _)].
  - split.
    + intros _. split; [exact Hadmit|]. rewrite Hsame.
      now exists ch, ds, mt.
    + intros Hn. contradiction.
  - assert (Hnf : type it <> "folder")
      by (rewrite Ht; apply file_type_not_folder).
    split; [contradiction|]. intros _.
    exists content. split; [exact Hs|].
    rewrite <- Hsame in Hfs.
    rewrite (stream_found _ _ _ _ _ _ _ Hadmit Hfs).
    repeat split.
    unfold delivered, Fs.read, stream_whole;
      cbn [payload Fs.createReadStream Fs.rs_path Fs.rs_window Fs.bind].
    now rewrite Hfs.
Qed.

(* ================================================================== *)
(** ** What the containment check does guarantee *)
(* ================================================================== *)

Lemma fullPath_normal_form (env : option string) (requestPath : string) :
  Path.isAbsolute (media_root env) = true ->
  exists segs t,
    Forall (fun s => file_name s = true) segs /\
    fullPath_of env requestPath = abs_path segs t.
Proof.
  intros Habs. unfold fullPath_of, MEDIA_ROOT, Path.join.
  cbn [Path.glue]. rewrite (truthy_eqb _ (media_root_truthy env)).
  assert (H : forall p, Path.isAbsolute p = true ->
            exists segs t,
              Forall (fun s => file_name s = true) segs /\
              Path.normalize p = abs_path segs t).
  { intros p Hp. rewrite normalize_absolute by exact Hp.
    eexists. eexists. split; [|reflexivity].
    apply normalize_segments_file_names; [constructor|].
    apply split_pieces_free. }
  destruct (requestPath =? "")%string; apply H; [exact Habs|].
  now rewrite isAbsolute_append by apply media_root_truthy.
Qed.

Lemma abs_path_child (segs : list string) (t : bool) (file : string) :
  String.prefix (abs_path segs t) (abs_path (segs ++ [file]) false) = true.
Proof.
  destruct t; [|apply abs_path_extends].
  destruct segs as [|s segs]; [apply (prefix_append "/")|].
  unfold abs_path. cbn [app].
  change (s :: (segs ++ [file])%list) with ((s :: segs) ++ [file])%list.
  rewrite concat_app by discriminate.
  replace ("/" ++ (String.concat "/" (s :: segs)
                     ++ "/" ++ String.concat "/" [file]) ++ "")
    with (("/" ++ String.concat "/" (s :: segs) ++ "/")
            ++ String.concat "/" [file] ++ "")
    by now rewrite !append_assoc.
  apply prefix_append.
Qed.

Lemma relative_root_denied (env : option string) (cwd : string) :
  Path.isAbsolute cwd = true ->
  Path.isAbsolute (media_root env) = false ->
  forall requestPath,
    access_denied env cwd (fullPath_of env requestPath) = true.
Proof.
  intros Hcwd Hrel requestPath.
  unfold access_denied, fullPath_of, MEDIA_ROOT.
  rewrite startsWith_absolute; [reflexivity | |].
  - apply join_relative; [apply media_root_truthy | exact Hrel].
  - now apply resolve_absolute.
Qed.

Lemma mapM_ext_in {A B : Type} (f g : A -> Fs.result B) (l : list A) :
  (forall x, In x l -> f x = g x) -> Fs.mapM f l = Fs.mapM g l.
Proof.
  induction l as [|x l IH]; intros H; simpl; [reflexivity|].
  rewrite (H x (or_introl eq_refl)), IH; [reflexivity|].
  intros y Hy. apply H. now right.
Qed.

(* ================================================================== *)
(** ** Downloads *)
(* ================================================================== *)






(** Two more answers of the download route that are not the whole file
    of the request: with a [Range] header the transfer sends the part
    asked for, and for a directory it sends nothing, so that the last
    route answers with the page of the client application. *)
Remark download_part_and_directory :
  (status (download Sample.env Sample.cwd Sample.disk
             Sample.contentDisposition Sample.dirname "x.mp4"
             (Some "bytes=0-99")) = 206 /\
   header "Content-Range"
     (download Sample.env Sample.cwd Sample.disk
        Sample.contentDisposition Sample.dirname "x.mp4"
        (Some "bytes=0-99")) = Some "bytes 0-99/1000" /\
   delivered Sample.disk
     (download Sample.env Sample.cwd Sample.disk
        Sample.contentDisposition Sample.dirname "x.mp4"
        (Some "bytes=0-99")) = Some (repeat Byte.x2a 100)) /\
  (status (download Sample.env Sample.cwd built_disk
             Sample.contentDisposition Sample.dirname "mix" None) = 200 /\
   payload (download Sample.env Sample.cwd built_disk
              Sample.contentDisposition Sample.dirname "mix" None)
     = Download "/srv/app/build/index.html" /\
   header "Content-Disposition"
     (download Sample.env Sample.cwd built_disk
        Sample.contentDisposition Sample.dirname "mix" None) = None) /\
  status (download Sample.env Sample.cwd Sample.disk
            Sample.contentDisposition Sample.dirname "mix" None) = 500.
Proof.
  vm_compute. repeat split.
Qed.


(* ================================================================== *)
(** ** What the answers depend on *)
(* ================================================================== *)

(** X5.  In a process with an absolute working directory, no response
    of the browse and stream handlers depends on anything the file
    system holds at a path that does not begin with the resolved media
    root: two file systems that agree on all paths with that prefix get
    the same answers from browse and from stream, and the same bytes are
    streamed. *)
Theorem responses_depend_only_on_paths_with_root_prefix
    (env : option string) (cwd : string) (fs fs' : Fs.filesystem)
    (mime_lookup : string -> option string)
    (localeCompare : string -> string -> Z)
    (requestPath : string) (range : option string) :
  Path.isAbsolute cwd = true ->
  lists_file_names fs ->
  agree_under (Path.resolve cwd [MEDIA_ROOT env]) fs fs' ->
  browse env cwd fs mime_lookup localeCompare requestPath
    = browse env cwd fs' mime_lookup localeCompare requestPath /\
  stream env cwd fs mime_lookup requestPath range
    = stream env cwd fs' mime_lookup requestPath range /\
  delivered fs (stream env cwd fs mime_lookup requestPath range)
    = delivered fs' (stream env cwd fs' mime_lookup requestPath range).
Proof.
  intros Hcwd Hnames Hagree.
  set (fullPath := fullPath_of env requestPath).
  destruct (access_denied env cwd fullPath) eqn:Hden.
  { unfold browse, stream. fold fullPath. rewrite Hden.
    repeat split. }
  assert (Hpre : JS.startsWith fullPath (Path.resolve cwd [MEDIA_ROOT env])
                 = true).
  { unfold access_denied in Hden. now apply negb_false_iff in Hden. }
  assert (Hfs : fs fullPath = fs' fullPath) by now apply Hagree.
  assert (Hs : stream env cwd fs mime_lookup requestPath range
               = stream env cwd fs' mime_lookup requestPath range).
  { unfold stream, Fs.existsSync, Fs.stat. fold fullPath. now rewrite Hfs. }
  split; [|split; [exact Hs|]].
  - (* browse *)
    unfold browse. fold fullPath. rewrite Hden.
    unfold browse_try, Fs.stat, Fs.readdir. rewrite <- Hfs.
    destruct (fs fullPath) as [n|e] eqn:Hn; [|reflexivity].
    cbn [Fs.bind]. destruct n as [content t|children dsize t];
      cbn [Fs.stats_of Fs.isDirectory negb Fs.bind]; [reflexivity|].
    rewrite (mapM_ext_in (describe fs mime_lookup fullPath requestPath)
               (describe fs' mime_lookup fullPath requestPath));
      [reflexivity|].
    intros c Hc. unfold describe, Fs.stat.
    rewrite (Hagree (Path.join [fullPath; c])); [reflexivity|].
    assert (Hfile : file_name c = true).
    { pose proof (Hnames _ _ _ _ Hn) as Hall.
      rewrite Forall_forall in Hall. now apply Hall. }
    destruct (Path.isAbsolute (media_root env)) eqn:Habs.
    + destruct (fullPath_normal_form env requestPath Habs)
        as (segs & tr & Hsegs & Hform).
      fold fullPath in Hform. rewrite Hform in Hpre |- *.
      rewrite join_abs_path_file by assumption.
      unfold JS.startsWith in *.
      eapply prefix_trans; [exact Hpre | apply abs_path_child].
    + pose proof (relative_root_denied env cwd Hcwd Habs requestPath) as Hx.
      fold fullPath in Hx. congruence.
  - rewrite <- Hs.
    unfold delivered, Fs.read.
    destruct (payload (stream env cwd fs mime_lookup requestPath range))
      as [j|file|p|] eqn:Hp; [reflexivity| | |reflexivity].
    + assert (Hfile : Fs.rs_path file = fullPath).
      { clear - Hp. unfold stream in Hp. fold fullPath in Hp.
        destruct (access_denied env cwd fullPath); [discriminate|].
        destruct (negb (Fs.existsSync fs fullPath)); [discriminate|].
        destruct (Fs.stat fs fullPath); [|discriminate].
        unfold stream_range, stream_whole in Hp.
        destruct range as [r|].
        - destruct (JS.truthy r).
          + destruct (range_bounds r (Fs.size a)) as [x y].
            destruct (Fs.createReadStream fullPath (Some (x, y))) eqn:E;
              [|discriminate].
            injection Hp as <-.
            unfold Fs.createReadStream in E.
            destruct (Fs.accepts _ _); [|discriminate].
            destruct x; try discriminate.
            destruct y; try discriminate; now injection E as <-.
          + now injection Hp as <-.
        - now injection Hp as <-. }
      now rewrite Hfile, Hfs.
    + exfalso. clear - Hp. unfold stream in Hp.
      destruct (access_denied _ _ _); [discriminate|].
      destruct (negb _); [discriminate|].
      destruct (Fs.stat _ _); [|discriminate].
      unfold stream_range, stream_whole in Hp.
      destruct range as [r|]; [destruct (JS.truthy r)|]; try discriminate.
      destruct (range_bounds r (Fs.size a)) as [x y].
      destruct (Fs.createReadStream _ _); discriminate.
Qed.

(* ================================================================== *)
(** ** Failing lookups *)
(* ================================================================== *)

Lemma mapM_throws {A B : Type} (f : A -> Fs.result B) (l : list A)
    (e : Fs.error_code) :
  (exists x, In x l /\ f x = Fs.Throw e) ->
  (forall x e', In x l -> f x = Fs.Throw e' -> e' = e) ->
  Fs.mapM f l = Fs.Throw e.
Proof.
  induction l as [|x l IH]; intros (y & Hy & Hfy) Hall; [contradiction|].
  simpl. destruct (f x) as [b|e'] eqn:E; cbn [Fs.bind].
  - destruct Hy as [->|Hy]; [congruence|].
    rewrite IH; [reflexivity | now exists y |].
    intros z e'' Hz. apply Hall. now right.
  - f_equal. apply (Hall x e'); [now left | exact E].
Qed.

(** X6.  One child that cannot be found fails the whole listing: when
    the stat of some child of an existing, admitted directory throws
    ENOENT (a dangling link, a file removed in between) and no child
    fails otherwise, browse answers 404 [Directory not found]. *)
Theorem dangling_child_fails_listing
    (env : option string) (cwd : string) (fs : Fs.filesystem)
    (mime_lookup : string -> option string)
    (localeCompare : string -> string -> Z)
    (requestPath : string)
    (children : list string) (dsize : Z) (mtime : string) :
  access_denied env cwd (fullPath_of env requestPath) = false ->
  fs (fullPath_of env requestPath)
    = Fs.Ok (Fs.Directory children dsize mtime) ->
  (exists c, In c children /\
     fs (Path.join [fullPath_of env requestPath; c]) = Fs.Throw Fs.ENOENT) ->
  (forall c e, In c children ->
     fs (Path.join [fullPath_of env requestPath; c]) = Fs.Throw e ->
     e = Fs.ENOENT) ->
  browse env cwd fs mime_lookup localeCompare requestPath
    = error_response 404 "Directory not found".
Proof.
  intros Hin Hfs (c & Hc & Hmiss) Hall.
  unfold browse. rewrite Hin.
  unfold browse_try, Fs.stat, Fs.readdir. rewrite Hfs.
  cbn [Fs.bind Fs.stats_of Fs.isDirectory negb].
  rewrite (mapM_throws _ _ Fs.ENOENT); [reflexivity | |].
  - exists c. split; [exact Hc|].
    unfold describe, Fs.stat. now rewrite Hmiss.
  - intros x e' Hx Hthrow. unfold describe, Fs.stat in Hthrow.
    destruct (fs (Path.join [fullPath_of env requestPath; x])) as [n|e'']
      eqn:E; cbn [Fs.bind] in Hthrow.
    + destruct (Fs.isDirectory (Fs.stats_of n)); discriminate.
    + injection Hthrow as <-. now apply (Hall x).
Qed.

(** X7.  When the lookup of an admitted path fails, stream and download
    answer 404 [File not found] whatever the error and whatever the
    range header, while browse answers 404 only for ENOENT and 500
    [Server error] for every other error. *)
Theorem failed_lookup_statuses
    (env : option string) (cwd : string) (fs : Fs.filesystem)
    (mime_lookup : string -> option string)
    (localeCompare : string -> string -> Z)
    (contentDisposition : string -> string) (dirname : string)
    (requestPath : string) (range : option string) (e : Fs.error_code) :
  access_denied env cwd (fullPath_of env requestPath) = false ->
  fs (fullPath_of env requestPath) = Fs.Throw e ->
  stream env cwd fs mime_lookup requestPath range
    = error_response 404 "File not found" /\
  download env cwd fs contentDisposition dirname requestPath range
    = error_response 404 "File not found" /\
  (e = Fs.ENOENT ->
   browse env cwd fs mime_lookup localeCompare requestPath
     = error_response 404 "Directory not found") /\
  (e <> Fs.ENOENT ->
   browse env cwd fs mime_lookup localeCompare requestPath
     = error_response 500 "Server error").
Proof.
  intros Hin Hfs.
  unfold stream, download, browse, browse_try, Fs.existsSync, Fs.stat.
  rewrite Hin, Hfs. cbn [negb Fs.bind].
  repeat split.
  - intros ->. reflexivity.
  - intros Hne. destruct e; congruence.
Qed.

(* ================================================================== *)
(** ** Range headers the handler was not written for *)
(* ================================================================== *)

Lemma split_extend_head (c : ascii) (a b : string) :
  free_of c a = true ->
  exists h tl,
    JS.split c b = h :: tl /\ JS.split c (a ++ b) = (a ++ h) :: tl.
Proof.
  intros Ha.
  destruct (JS.split c b) as [|h tl] eqn:Eb.
  { now destruct (split_nonempty c b). }
  exists h, tl. split; [reflexivity|].
  induction a as [|x a IH]; simpl; [exact Eb|].
  simpl in Ha. apply andb_prop in Ha as [Hx Ha].
  apply negb_true_iff in Hx. now rewrite Hx, (IH Ha).
Qed.

Lemma split_head_no_digit (c : ascii) (s h : string) (tl : list string) :
  JS.starts_with_digit s = false ->
  JS.split c s = h :: tl -> JS.starts_with_digit h = false.
Proof.
  destruct s as [|x s]; simpl.
  - intros _ E. now injection E as <-.
  - intros Hx. destruct (Ascii.eqb x c).
    + intros E. now injection E as <-.
    + destruct (JS.split c s); intros E; injection E as <-; exact Hx.
Qed.

Lemma parseInt_show_then (z : Z) (rest : string) :
  0 <= z -> JS.starts_with_digit rest = false ->
  JS.parseInt (JS.show_Z z ++ rest) = JS.of_Z z.
Proof.
  intros Hz Hrest.
  pose proof (all_digits_first _ (show_Z_digits z Hz) (show_Z_truthy z Hz))
    as Hd.
  pose proof (show_Z_value z rest Hz Hrest) as Hv.
  destruct (JS.show_Z z) as [|c s]; [discriminate|].
  cbn [append] in *. rewrite parseInt_digit_first by exact Hd.
  now rewrite Hv.
Qed.

Lemma range_bounds_trailing (s e fileSize : Z) (rest : string) :
  0 <= s -> 0 <= e -> JS.starts_with_digit rest = false ->
  range_bounds ("bytes=" ++ JS.show_Z s ++ "-" ++ JS.show_Z e ++ rest)
    fileSize
  = (JS.of_Z s, JS.of_Z e).
Proof.
  intros Hs He Hrest. unfold range_bounds.
  rewrite replace_bytes_prefix.
  change ("-" ++ JS.show_Z e ++ rest)
    with (String "-"%char (JS.show_Z e ++ rest)).
  rewrite split_at_first by now apply digits_free_of_dash, show_Z_digits.
  destruct (split_extend_head "-"%char (JS.show_Z e) rest)
    as (h & tl & Hsplit & ->);
    [now apply digits_free_of_dash, show_Z_digits|].
  cbn [nth nth_error].
  rewrite truthy_append by now apply show_Z_truthy.
  rewrite parseInt_show_Z by exact Hs.
  rewrite parseInt_show_then; [reflexivity | exact He |].
  exact (split_head_no_digit _ _ _ _ Hrest Hsplit).
Qed.

(** X8.  Whatever follows the end offset of a range header without
    continuing its digits is ignored: the answer is that of the header
    cut after the end offset.  In particular a multi-range header
    [bytes=a-b,c-d] is answered like [bytes=a-b]. *)
Theorem text_after_range_end_is_ignored
    (env : option string) (cwd : string) (fs : Fs.filesystem)
    (mime_lookup : string -> option string)
    (requestPath rest : string) (s e : Z) :
  0 <= s -> 0 <= e ->
  JS.starts_with_digit rest = false ->
  stream env cwd fs mime_lookup requestPath
    (Some ("bytes=" ++ JS.show_Z s ++ "-" ++ JS.show_Z e ++ rest))
  = stream env cwd fs mime_lookup requestPath
      (Some ("bytes=" ++ JS.show_Z s ++ "-" ++ JS.show_Z e)).
Proof.
  intros Hs He Hrest. unfold stream.
  destruct (access_denied _ _ _); [reflexivity|].
  destruct (negb _); [reflexivity|].
  destruct (Fs.stat _ _) as [st|]; [|reflexivity].
  assert (Ht : forall x, JS.truthy ("bytes=" ++ x) = true) by reflexivity.
  rewrite !Ht. unfold stream_range.
  rewrite (range_bounds_trailing s e (Fs.size st) rest Hs He Hrest).
  pose proof (range_bounds_trailing s e (Fs.size st) "" Hs He eq_refl) as H0.
  rewrite !append_empty_r in H0. now rewrite H0.
Qed.

(** X9.  A suffix range [bytes=-N] is not served: its start parses to
    NaN, the read stream cannot be created, and for every admitted,
    existing path the answer is the 500 of the error middleware. *)
Theorem suffix_range_is_not_served
    (env : option string) (cwd : string) (fs : Fs.filesystem)
    (mime_lookup : string -> option string)
    (requestPath rest : string) (n : Fs.node) :
  access_denied env cwd (fullPath_of env requestPath) = false ->
  fs (fullPath_of env requestPath) = Fs.Ok n ->
  fst (range_bounds ("bytes=-" ++ rest) (Fs.size (Fs.stats_of n)))
    = JS.NaN /\
  stream env cwd fs mime_lookup requestPath (Some ("bytes=-" ++ rest))
    = error_middleware.
Proof.
  intros Hin Hfs.
  assert (Hb : fst (range_bounds ("bytes=-" ++ rest)
                      (Fs.size (Fs.stats_of n))) = JS.NaN).
  { unfold range_bounds.
    change ("bytes=-" ++ rest) with ("bytes=" ++ String "-"%char rest).
    rewrite replace_bytes_prefix.
    change (JS.split "-"%char (String "-"%char rest))
      with (EmptyString :: JS.split "-"%char rest).
    reflexivity. }
  split; [exact Hb|].
  rewrite (stream_found _ _ _ _ _ _ _ Hin Hfs).
  replace (JS.truthy ("bytes=-" ++ rest)) with true by reflexivity.
  apply stream_range_rejected. now rewrite Hb.
Qed.

(** X10.  A range whose end lies at or past the end of the file is
    answered 206 with the [Content-Length] of the requested window,
    but only the bytes up to the end of the file are delivered: the
    header announces more bytes than the body has. *)
Theorem range_end_past_file_end
    (env : option string) (cwd : string) (fs : Fs.filesystem)
    (mime_lookup : string -> option string)
    (requestPath : string)
    (content : list Byte.byte) (mtime : string) (s e : Z) :
  let fullPath := fullPath_of env requestPath in
  let S := Z.of_nat (List.length content) in
  access_denied env cwd fullPath = false ->
  fs fullPath = Fs.Ok (Fs.File content mtime) ->
  0 <= s < S -> S <= e <= Fs.MAX_SAFE_INTEGER ->
  let r := stream env cwd fs mime_lookup requestPath
             (Some ("bytes=" ++ JS.show_Z s ++ "-" ++ JS.show_Z e)) in
  status r = 206 /\
  header "Content-Range" r
    = Some ("bytes " ++ JS.show_Z s ++ "-" ++ JS.show_Z e
              ++ "/" ++ JS.show_Z S) /\
  header "Content-Length" r = Some (JS.show_Z (e - s + 1)) /\
  delivered fs r = Some (skipn (Z.to_nat s) content) /\
  Z.of_nat (List.length (skipn (Z.to_nat s) content)) = S - s /\
  S - s < e - s + 1.
Proof.
  intros fullPath S Hin Hfs Hs He r.
  assert (Hr : r = mkResponse 206
      [("Content-Type", content_type mime_lookup fullPath);
       ("Content-Range",
        "bytes " ++ JS.show_Z s ++ "-" ++ JS.show_Z e
          ++ "/" ++ JS.show_Z S);
       ("Accept-Ranges", "bytes");
       ("Content-Length", JS.show_Z (e - s + 1))]
      (Piped (Fs.mkReadStream fullPath (Some (s, Some e))))).
  { subst r. rewrite (stream_found _ _ _ _ _ _ _ Hin Hfs).
    replace (JS.truthy ("bytes=" ++ JS.show_Z s ++ "-" ++ JS.show_Z e))
      with true by reflexivity.
    apply stream_range_accepted.
    - apply range_bounds_closed; lia.
    - accepted s e. }
  rewrite Hr. split; [reflexivity|]. split; [reflexivity|].
  split; [reflexivity|]. split; [|split].
  - unfold delivered, Fs.read.
    cbn [payload Fs.rs_path Fs.rs_window Fs.bind].
    fold fullPath. rewrite Hfs. cbn [Fs.bind]. unfold Fs.window.
    f_equal. apply firstn_all2. rewrite length_skipn. lia.
  - rewrite length_skipn. lia.
  - lia.
Qed.

(* ================================================================== *)
(** ** More on the size formatter *)
(* ================================================================== *)

Lemma floor_log_k_bracket (bytes i : Z) :
  0 <= i -> k ^ i <= bytes < k ^ (i + 1) -> floor_log_k bytes = i.
Proof.
  intros Hi [Hlo Hhi]. unfold floor_log_k, k in *.
  change 1024 with (2 ^ 10) in Hlo, Hhi.
  rewrite <- Z.pow_mul_r in Hlo, Hhi by lia.
  assert (Hpos : 0 < bytes).
  { apply Z.lt_le_trans with (2 ^ (10 * i)); [|exact Hlo].
    apply Z.pow_pos_nonneg; lia. }
  apply Z.log2_le_pow2 in Hlo; [|exact Hpos].
  apply Z.log2_lt_pow2 in Hhi; [|exact Hpos].
  symmetry. apply (Z.div_unique _ _ _ (Z.log2 bytes - 10 * i)); lia.
Qed.

Lemma unit_name_some (i : Z) :
  0 <= i <= 4 -> nth_error sizes (Z.to_nat i) = Some (unit_name i).
Proof.
  intros Hi. unfold unit_name.
  assert (Hc : i = 0 \/ i = 1 \/ i = 2 \/ i = 3 \/ i = 4) by lia.
  destruct Hc as [-> | [-> | [-> | [-> | ->]]]]; reflexivity.
Qed.

(** X11.  A whole number of units is printed without a decimal place:
    for m from 1 to 1023 and a unit 1024^i with i from 0 to 4,
    [formatFileSize (m * 1024^i)] is m followed by the unit; so every
    count below 1024 is printed as itself with [B]. *)
Theorem formatFileSize_whole_units (m i : Z) :
  1 <= m < 1024 -> 0 <= i <= 4 ->
  exists u,
    nth_error sizes (Z.to_nat i) = Some u /\
    formatFileSize (m * k ^ i) = JS.show_Z m ++ " " ++ u.
Proof.
  intros Hm Hi. exists (unit_name i). split; [now apply unit_name_some|].
  assert (Hden : 0 < k ^ i) by (apply Z.pow_pos_nonneg; unfold k; lia).
  assert (Hlog : floor_log_k (m * k ^ i) = i).
  { apply floor_log_k_bracket; [lia|].
    rewrite Z.pow_add_r by lia. change (k ^ 1) with 1024. nia. }
  unfold formatFileSize.
  replace (m * k ^ i =? 0) with false by (symmetry; apply Z.eqb_neq; nia).
  rewrite Hlog.
  assert (Hn : toFixed1 (m * k ^ i) (k ^ i) = 10 * m).
  { unfold toFixed1.
    replace (20 * (m * k ^ i) + k ^ i) with ((20 * m + 1) * k ^ i) by ring.
    rewrite Z.div_mul_cancel_r by lia.
    symmetry. apply (Z.div_unique _ _ _ 1); lia. }
  rewrite Hn. unfold show_tenths.
  replace ((10 * m) mod 10) with 0
    by (symmetry; rewrite Z.mul_comm; apply Z.mod_mul; lia).
  replace (10 * m / 10) with m
    by (symmetry; rewrite Z.mul_comm; apply Z.div_mul; lia).
  reflexivity.
Qed.

(** X12.  The unit is chosen before the number is rounded, so a count
    within a twentieth of a unit below the next power of 1024 (and not
    above [log_exact]) is printed as 1024 of the smaller unit, not as 1
    of the larger. *)
Theorem formatFileSize_prints_1024 (bytes i : Z) :
  0 <= i <= 4 ->
  20479 * k ^ i <= 20 * bytes -> bytes < k ^ (i + 1) ->
  bytes <= log_exact ->
  exists u,
    nth_error sizes (Z.to_nat i) = Some u /\
    formatFileSize bytes = "1024 " ++ u.
Proof.
  intros Hi Hlo Hhi _. exists (unit_name i).
  split; [now apply unit_name_some|].
  assert (Hden : 0 < k ^ i) by (apply Z.pow_pos_nonneg; unfold k; lia).
  assert (Hnext : k ^ (i + 1) = 1024 * k ^ i).
  { rewrite Z.pow_add_r by lia. change (k ^ 1) with 1024. lia. }
  assert (Hlog : floor_log_k bytes = i)
    by (apply floor_log_k_bracket; lia).
  unfold formatFileSize.
  replace (bytes =? 0) with false by (symmetry; apply Z.eqb_neq; lia).
  rewrite Hlog.
  assert (Hn : toFixed1 bytes (k ^ i) = 10240).
  { unfold toFixed1. symmetry.
    apply (Z.div_unique _ _ _ (20 * bytes + k ^ i - 2 * k ^ i * 10240));
      lia. }
  rewrite Hn. reflexivity.
Qed.

(** X13.  The unit table ends at TB: for a count of 1024^5 bytes or
    more (up to the largest safe integer) the index is 5, past the end
    of the table, and the result ends in [undefined]. *)
Theorem formatFileSize_beyond_units (bytes : Z) :
  k ^ 5 <= bytes <= Fs.MAX_SAFE_INTEGER ->
  floor_log_k bytes = 5 /\
  nth_error sizes 5 = None /\
  exists n,
    10 <= n <= 80 /\
    formatFileSize bytes = show_tenths n ++ " undefined".
Proof.
  intros [Hlo Hhi].
  assert (Hlog : floor_log_k bytes = 5).
  { apply floor_log_k_bracket; [lia|]. split; [exact Hlo|].
    unfold Fs.MAX_SAFE_INTEGER in Hhi. unfold k.
    apply Z.le_lt_trans with (2 ^ 53 - 1); [exact Hhi | reflexivity]. }
  split; [exact Hlog|]. split; [reflexivity|].
  exists (toFixed1 bytes (k ^ 5)). split.
  - pose proof (toFixed1_spec bytes (k ^ 5) ltac:(reflexivity)) as H.
    unfold Fs.MAX_SAFE_INTEGER in Hhi. unfold k in *.
    change (1024 ^ 5) with 1125899906842624 in *.
    change (2 ^ 53) with 9007199254740992 in Hhi. lia.
  - unfold formatFileSize.
    replace (bytes =? 0) with false
      by (symmetry; apply Z.eqb_neq; unfold k in Hlo; lia).
    now rewrite Hlog.
Qed.

(* ================================================================== *)
(** ** The client: going back and searching *)
(* ================================================================== *)

Lemma filter_truthy_file_names (segs : list string) :
  Forall (fun s => file_name s = true) segs ->
  filter JS.truthy segs = segs.
Proof.
  induction 1 as [|s segs Hs _ IH]; simpl; [reflexivity|].
  apply file_name_inv in Hs as [-> _]. now rewrite IH.
Qed.

Lemma parts_of_abs_path (segs : list string) (t : bool) :
  Forall (fun s => file_name s = true) segs ->
  filter JS.truthy (JS.split "/"%char (abs_path segs t)) = segs.
Proof.
  intros Hsegs. destruct segs as [|s segs']; [reflexivity|].
  set (segs := s :: segs') in *.
  assert (Hfree : Forall (fun s => free_of Path.sep s = true) segs).
  { eapply Forall_impl; [|exact Hsegs]. intros a Ha.
    now apply file_name_inv in Ha. }
  unfold abs_path, segs. fold segs.
  change ("/" ++ String.concat "/" segs ++ (if t then "/" else ""))
    with ("" ++ String Path.sep
            (String.concat "/" segs ++ (if t then "/" else ""))).
  change "/"%char with Path.sep.
  rewrite split_append. destruct t.
  - change (String.concat "/" segs ++ "/")
      with (String.concat "/" segs ++ String Path.sep "").
    rewrite split_append, split_concat by (auto; discriminate).
    rewrite !filter_app. cbn [JS.split filter JS.truthy String.eqb negb app].
    rewrite (filter_truthy_file_names _ Hsegs). now rewrite app_nil_r.
  - rewrite append_empty_r, split_concat by (auto; discriminate).
    cbn [JS.split filter JS.truthy String.eqb negb app].
    now apply filter_truthy_file_names.
Qed.

Lemma goBack_abs_path (segs : list string) (t : bool)
    (video : option Item) :
  Forall (fun s => file_name s = true) segs ->
  Client.goBack (Client.mkState (abs_path segs t) video)
  = Client.mkState (abs_path (removelast segs) false) video.
Proof.
  intros Hsegs. unfold Client.goBack.
  cbn [Client.currentPath Client.selectedVideo].
  rewrite (parts_of_abs_path _ _ Hsegs).
  destruct (removelast segs) as [|s rest]; [reflexivity|].
  cbn [List.length Nat.ltb Nat.leb]. unfold abs_path.
  now rewrite append_empty_r.
Qed.

(** X14.  [goBack] drops the last segment of the current path: from
    [/a/.../y/z], with or without a trailing separator, it goes to
    [/a/.../y]; from a single segment and from [/] it goes to [/].  The
    selected video is left alone. *)
Theorem goBack_drops_last_segment
    (segs : list string) (t : bool) (video : option Item) :
  Forall (fun s => file_name s = true) segs ->
  Client.goBack (Client.mkState (abs_path segs t) video)
    = Client.mkState (abs_path (removelast segs) false) video /\
  (forall last,
     file_name last = true ->
     Client.goBack (Client.mkState (abs_path (segs ++ [last]) t) video)
     = Client.mkState (abs_path segs false) video) /\
  Client.goBack (Client.mkState "/" video) = Client.mkState "/" video.
Proof.
  intros Hsegs. split; [now apply goBack_abs_path|]. split.
  - intros last Hlast. rewrite goBack_abs_path.
    + now rewrite removelast_last.
    + apply Forall_app. split; [exact Hsegs | now constructor].
  - reflexivity.
Qed.

Lemma prefix_split (t s : string) :
  String.prefix t s = true -> exists b, s = t ++ b.
Proof.
  revert s. induction t as [|x t IH]; intros s H.
  - now exists s.
  - destruct s as [|y s]; [discriminate|]. simpl in H.
    destruct (ascii_dec x y) as [->|]; [|discriminate].
    destruct (IH s H) as (b & ->). now exists b.
Qed.

Lemma includes_spec (s t : string) :
  Client.includes s t = true <-> exists a b, s = a ++ t ++ b.
Proof.
  split.
  - induction s as [|c s IH]; cbn [Client.includes].
    + rewrite orb_false_r. intros H.
      destruct (prefix_split _ _ H) as (b & Hb).
      now exists "", b.
    + intros H. apply orb_prop in H as [H|H].
      * destruct (prefix_split _ _ H) as (b & Hb).
        exists "", b. exact Hb.
      * destruct (IH H) as (a & b & ->). now exists (String c a), b.
  - intros (a & b & ->). induction a as [|c a IH].
    + cbn [append].
      assert (H : String.prefix t (t ++ b) = true) by apply prefix_append.
      destruct (t ++ b); cbn [Client.includes]; rewrite H; reflexivity.
    + cbn [append Client.includes]. rewrite IH. apply orb_true_r.
Qed.

(** X15.  The search shows exactly the items whose name, in lower
    case, contains the search term in lower case; an item is found by
    its own name in any letter case, and when lower-casing maps the
    empty term to itself an empty search shows every item. *)
Theorem search_shows_items_containing_term
    (toLowerCase : string -> string)
    (mediaItems : list Item) (searchTerm : string) :
  (forall it,
     In it (Client.filteredItems toLowerCase mediaItems searchTerm) <->
     In it mediaItems /\
     exists a b,
       toLowerCase (name it) = a ++ toLowerCase searchTerm ++ b) /\
  (forall it,
     In it mediaItems -> toLowerCase searchTerm = toLowerCase (name it) ->
     In it (Client.filteredItems toLowerCase mediaItems searchTerm)) /\
  (toLowerCase "" = "" ->
   Client.filteredItems toLowerCase mediaItems "" = mediaItems).
Proof.
  assert (Hspec : forall it,
     In it (Client.filteredItems toLowerCase mediaItems searchTerm) <->
     In it mediaItems /\
     exists a b,
       toLowerCase (name it) = a ++ toLowerCase searchTerm ++ b).
  { intros it. unfold Client.filteredItems.
    rewrite filter_In, includes_spec. reflexivity. }
  split; [exact Hspec|]. split.
  - intros it Hin Heq. apply Hspec. split; [exact Hin|].
    exists "", "". rewrite Heq. cbn [append]. now rewrite append_empty_r.
  - intros Hempty. unfold Client.filteredItems. rewrite Hempty.
    apply forallb_filter_id. apply forallb_forall. intros it _.
    apply includes_spec. exists "", (toLowerCase (name it)). reflexivity.
Qed.

(** X16.  Entering a listed folder and going back returns to where the
    listing was requested: when the client stands at a canonical path,
    the listing was requested for that path without its leading
    separator, and the file system lists file names, then clicking any
    folder item sets the current path to the path of the item and
    [goBack] restores the previous one; clicking an item that is not a
    folder never changes the current path. *)
Theorem back_undoes_entering_a_folder
    (env : option string) (cwd : string) (fs : Fs.filesystem)
    (mime_lookup : string -> option string)
    (localeCompare : string -> string -> Z)
    (st : Client.State) (segs : list string) :
  Forall (fun s => file_name s = true) segs ->
  Client.currentPath st = abs_path segs false ->
  lists_file_names fs ->
  status (browse env cwd fs mime_lookup localeCompare
            (JS.drop 1 (Client.currentPath st))) = 200 ->
  exists items,
    listed (browse env cwd fs mime_lookup localeCompare
              (JS.drop 1 (Client.currentPath st)))
      = map item_json items /\
    Forall (fun it =>
      (type it = "folder" ->
       Client.currentPath (Client.handleItemClick st it) = path it /\
       Client.currentPath (Client.goBack (Client.handleItemClick st it))
         = Client.currentPath st) /\
      (type it <> "folder" ->
       Client.currentPath (Client.handleItemClick st it)
         = Client.currentPath st))
      items.
Proof.
  intros Hsegs Hcur Hnames H200.
  set (requestPath := JS.drop 1 (Client.currentPath st)) in *.
  assert (Hreq : stays_below requestPath = true /\
                 request_segments requestPath = segs).
  { subst requestPath. rewrite Hcur.
    destruct segs as [|s segs']; [split; reflexivity|].
    rewrite drop_abs_path by discriminate.
    now destruct (concat_file_names (s :: segs') ltac:(discriminate) Hsegs)
      as (_ & _ & Hb & Hrs). }
  destruct Hreq as [Hbelow Hrs].
  destruct (browse_items _ _ _ _ _ _ H200)
    as (children & dsize & mtime & items & _ & Hdir & Hperm & Hlisted
        & Hitems).
  exists items. split; [exact Hlisted|].
  assert (Hfiles : Forall (fun it => file_name (name it) = true) items).
  { apply Forall_map with (f := name) (P := fun c => file_name c = true).
    eapply Permutation_Forall; [exact Hperm|].
    exact (Hnames _ _ _ _ Hdir). }
  rewrite Forall_forall in Hitems, Hfiles |- *. intros it Hin.
  specialize (Hitems it Hin). specialize (Hfiles it Hin).
  unfold describes in Hitems.
  destruct (describe_spec _ _ _ _ _ _ Hitems) as (_ & Hpath & _).
  unfold Client.handleItemClick. split.
  - intros Ht. rewrite Ht. cbn [String.eqb Ascii.eqb Bool.eqb andb].
    cbn [Client.currentPath]. split; [reflexivity|].
    destruct st as [cur video]. cbn [Client.currentPath Client.selectedVideo] in *.
    rewrite Hpath, relativePath_canonical, Hrs by assumption.
    rewrite goBack_abs_path
      by (apply Forall_app; split; [exact Hsegs | now constructor]).
    cbn [Client.currentPath]. now rewrite removelast_last, Hcur.
  - intros Hn. apply String.eqb_neq in Hn. rewrite Hn.
    now destruct (type it =? "video")%string.
Qed.

(* ================================================================== *)
(** ** Exactly which paths the check admits *)
(* ================================================================== *)

Lemma prefix_cons (c d : ascii) (a b : string) :
  String.prefix (String c a) (String d b) = true <->
  c = d /\ String.prefix a b = true.
Proof.
  simpl. destruct (ascii_dec c d) as [->|Hne]; split.
  - auto.
  - now intros [_ H].
  - discriminate.
  - intros [E _]. contradiction.
Qed.

(** Two separator-free segments that begin strings of which one is a
    prefix of the other: either the shorter string ends inside the
    segment, or the segments are equal and the rests are in the prefix
    relation. *)
Lemma prefix_segment (r s x y : string) :
  free_of Path.sep r = true -> free_of Path.sep s = true ->
  (x = "" \/ Path.isAbsolute x = true) ->
  (y = "" \/ Path.isAbsolute y = true) ->
  String.prefix (r ++ x) (s ++ y) = true ->
  (x = "" /\ String.prefix r s = true) \/
  (r = s /\ String.prefix x y = true).
Proof.
  revert s. induction r as [|c r IH]; intros s Hr Hs Hx Hy H.
  - cbn [append] in H.
    destruct Hx as [->|Hx]; [left; split; [reflexivity | now destruct s]|].
    right. destruct x as [|d x]; [discriminate|].
    simpl in Hx. apply Ascii.eqb_eq in Hx. subst d.
    destruct s as [|e s].
    + split; [reflexivity | exact H].
    + cbn [append] in H. apply prefix_cons in H as [<- _].
      simpl in Hs. discriminate.
  - simpl in Hr. apply andb_prop in Hr as [Hc Hr].
    apply negb_true_iff in Hc.
    destruct s as [|e s].
    + cbn [append] in H. destruct Hy as [->|Hy]; [discriminate|].
      destruct y as [|d y]; [discriminate|].
      apply prefix_cons in H as [<- _].
      simpl in Hy. congruence.
    + cbn [append] in H. apply prefix_cons in H as [<- H].
      simpl in Hs. apply andb_prop in Hs as [_ Hs].
      destruct (IH s Hr Hs Hx Hy H) as [[-> Hp]|[-> Hp]].
      * left. split; [reflexivity|]. now apply prefix_cons.
      * right. now split.
Qed.

Lemma concat_cons2 (s s' : string) (l : list string) :
  String.concat "/" (s :: s' :: l)
  = s ++ String Path.sep (String.concat "/" (s' :: l)).
Proof.
  reflexivity.
Qed.

Lemma prefix_of_empty (a : string) :
  String.prefix a "" = true -> a = "".
Proof.
  now destruct a.
Qed.

Lemma prefix_segments (A : list string) :
  forall (B : list string) (tail : string),
    A <> [] ->
    Forall (fun s => file_name s = true) A ->
    Forall (fun s => file_name s = true) B ->
    (tail = "" \/ tail = "/") ->
    String.prefix (String.concat "/" A) (String.concat "/" B ++ tail)
      = true ->
    exists front last seg rest,
      A = (front ++ [last])%list /\
      B = (front ++ seg :: rest)%list /\
      String.prefix last seg = true.
Proof.
  induction A as [|r A IH]; intros B tail Hne HA HB Htail H; [congruence|].
  inversion HA as [|? ? Hr HA']; subst.
  destruct (file_name_inv _ Hr) as (Hrt & Hrf & _).
  assert (Htl : tail = "" \/ Path.isAbsolute tail = true)
    by (destruct Htail as [->| ->]; auto).
  destruct B as [|s B].
  { exfalso. change (String.concat "/" [] ++ tail) with tail in H.
    destruct r as [|c r]; [discriminate|].
    assert (Hc : exists z, String.concat "/" (String c r :: A) = String c z).
    { destruct A as [|r2 A]; [now exists r|].
      rewrite concat_cons2. cbn [append]. eauto. }
    destruct Hc as (z & Hz). rewrite Hz in H.
    destruct Htail as [->| ->]; [discriminate|].
    apply prefix_cons in H as [-> _]. simpl in Hrf. discriminate. }
  inversion HB as [|? ? Hs HB']; subst.
  destruct (file_name_inv _ Hs) as (_ & Hsf & _).
  assert (Hy : forall l : list string,
            String.concat "/" (s :: l) ++ tail
            = s ++ match l with
                   | [] => tail
                   | _ => String Path.sep (String.concat "/" l ++ tail)
                   end).
  { intros [|s2 l]; [reflexivity|].
    rewrite concat_cons2. now rewrite append_assoc. }
  rewrite Hy in H.
  set (y := match B with
            | [] => tail
            | _ => String Path.sep (String.concat "/" B ++ tail)
            end) in *.
  assert (Hyy : y = "" \/ Path.isAbsolute y = true)
    by (subst y; destruct B; [exact Htl | now right]).
  destruct A as [|r2 A].
  - (* the last segment of the root *)
    cbn [String.concat] in H.
    rewrite <- (append_empty_r r) in H.
    destruct (prefix_segment r s "" y Hrf Hsf (or_introl eq_refl) Hyy H)
      as [[_ Hp]|[-> _]].
    + exists [], r, s, B. now repeat split.
    + exists [], s, s, B. repeat split.
      rewrite <- (append_empty_r s) at 2. apply prefix_append.
  - rewrite concat_cons2 in H.
    destruct (prefix_segment r s
                (String Path.sep (String.concat "/" (r2 :: A))) y
                Hrf Hsf (or_intror eq_refl) Hyy H)
      as [[E _]|[-> Hp]]; [discriminate|].
    subst y. destruct B as [|s2 B].
    + exfalso. destruct Htail as [->| ->]; [discriminate|].
      apply prefix_cons in Hp as [_ Hp].
      apply prefix_of_empty in Hp.
      pose proof (concat_file_names_truthy (r2 :: A) ltac:(discriminate) HA')
        as Ht.
      rewrite Hp in Ht. discriminate.
    + apply prefix_cons in Hp as [_ Hp].
      destruct (IH (s2 :: B) tail ltac:(discriminate) HA' HB' Htail Hp)
        as (front & last & seg & rest & EA & EB & Hlast).
      exists (s :: front), last, seg, rest.
      rewrite EA, EB. now repeat split.
Qed.

Lemma concat_extend_last (front rest : list string) (last b : string) :
  exists more,
    String.concat "/" (front ++ (last ++ b) :: rest)
    = String.concat "/" (front ++ [last]) ++ more.
Proof.
  induction front as [|f front IH].
  - cbn [app]. destruct rest as [|r rest].
    + now exists b.
    + exists (b ++ "/" ++ String.concat "/" (r :: rest)).
      rewrite concat_cons2. cbn [String.concat]. now rewrite append_assoc.
  - destruct IH as (more & E). exists more.
    cbn [app].
    destruct (front ++ (last ++ b)%string :: rest)%list as [|x1 l1] eqn:E1;
      [now destruct front|].
    destruct (front ++ [last])%list as [|x2 l2] eqn:E2;
      [now destruct front|].
    rewrite !concat_cons2, E. cbn [append].
    rewrite append_assoc. reflexivity.
Qed.

(** X17.  What the containment check admits, segment by segment.  With
    an absolute media root whose normal form ends in the segment
    [last], a request is admitted exactly when the path it resolves to
    has the segments of the root before [last], followed by a segment
    that begins with [last], followed by anything: the last segment of
    the root is compared as a string prefix, the others for equality.
    When the root is [/] every request is admitted. *)
Theorem admitted_paths_by_segment
    (env : option string) (cwd requestPath : string)
    (front : list string) (last : string) :
  Path.isAbsolute (media_root env) = true ->
  (root_segments env = (front ++ [last])%list ->
   (access_denied env cwd (fullPath_of env requestPath) = false <->
    exists seg rest t,
      fullPath_of env requestPath = abs_path (front ++ seg :: rest) t /\
      String.prefix last seg = true)) /\
  (root_segments env = [] ->
   access_denied env cwd (fullPath_of env requestPath) = false).
Proof.
  intros Habs.
  destruct (fullPath_normal_form env requestPath Habs)
    as (segs & t & Hsegs & Hform).
  pose proof (root_segments_file_names env) as Hroot.
  unfold access_denied, JS.startsWith.
  rewrite (resolve_root_canonical env cwd Habs), Hform.
  split.
  - intros Eroot. rewrite Eroot in *. split.
    + intros H. apply negb_false_iff in H.
      assert (Hne : (front ++ [last])%list <> []) by now destruct front.
      destruct segs as [|s segs'].
      { exfalso. unfold abs_path in H.
        destruct (front ++ [last])%list as [|x l] eqn:E; [congruence|].
        cbn [append] in H. apply prefix_cons in H as [_ H].
        apply prefix_of_empty in H.
        pose proof (concat_file_names_truthy (x :: l) ltac:(discriminate)
                      Hroot) as Ht.
        rewrite append_empty_r in H. rewrite H in Ht. discriminate. }
      assert (Hp : String.prefix (String.concat "/" (front ++ [last]))
                     (String.concat "/" (s :: segs')
                        ++ (if t then "/" else "")) = true).
      { unfold abs_path in H.
        destruct (front ++ [last])%list as [|x l] eqn:E; [congruence|].
        cbn [append] in H. apply prefix_cons in H as [_ H].
        now rewrite append_empty_r in H. }
      assert (Htail : (if t then "/" else "") = ""
                      \/ (if t then "/" else "") = "/")
        by (destruct t; auto).
      destruct (prefix_segments _ _ _ Hne Hroot Hsegs Htail Hp)
        as (front' & last' & seg & rest & EA & EB & Hlast).
      apply app_inj_tail in EA as [<- <-].
      exists seg, rest, t. now rewrite EB.
    + intros (seg & rest & t' & E & Hlast).
      apply negb_false_iff. rewrite E.
      destruct (prefix_split _ _ Hlast) as (b & ->).
      destruct (concat_extend_last front rest last b) as (more & Hmore).
      unfold abs_path.
      destruct (front ++ [last])%list as [|x l] eqn:E1;
        [now destruct front|].
      destruct (front ++ (last ++ b)%string :: rest)%list as [|x' l'] eqn:E2;
        [now destruct front|].
      rewrite Hmore, append_empty_r.
      replace ("/" ++ (String.concat "/" (x :: l) ++ more)
                 ++ (if t' then "/" else ""))
        with (("/" ++ String.concat "/" (x :: l))
                ++ more ++ (if t' then "/" else ""))
        by now rewrite !append_assoc.
      now rewrite prefix_append.
  - intros Eroot. rewrite Eroot. apply negb_false_iff.
    destruct segs; [reflexivity | apply (prefix_append "/")].
Qed.

(* ================================================================== *)
(** ** The date of an item *)
(* ================================================================== *)

Lemma date_of_free (mtime : string) :
  free_of "T"%char (date_of mtime) = true.
Proof.
  unfold date_of.
  pose proof (split_pieces_free "T"%char mtime) as H.
  destruct (JS.split "T"%char mtime); [reflexivity|].
  now apply Forall_inv in H.
Qed.

Lemma date_of_day (day time : string) :
  free_of "T"%char day = true ->
  date_of (day ++ "T" ++ time) = day.
Proof.
  intros Hday. unfold date_of.
  change (day ++ "T" ++ time) with (day ++ String "T"%char time).
  now rewrite split_at_first.
Qed.

(** X18.  The [modified] member of every item of a successful listing
    is the modification time of the child cut before its first [T]: it
    never contains a [T], and for a time stamp of the form
    [<day>T<time>] it is the day. *)
Theorem listing_dates_are_days
    (env : option string) (cwd : string) (fs : Fs.filesystem)
    (mime_lookup : string -> option string)
    (localeCompare : string -> string -> Z) (requestPath : string) :
  status (browse env cwd fs mime_lookup localeCompare requestPath) = 200 ->
  exists items,
    listed (browse env cwd fs mime_lookup localeCompare requestPath)
      = map item_json items /\
    Forall (fun it =>
      exists n,
        fs (Path.join [fullPath_of env requestPath; name it]) = Fs.Ok n /\
        free_of "T"%char (modified it) = true /\
        (forall day time,
           Fs.mtime (Fs.stats_of n) = day ++ "T" ++ time ->
           free_of "T"%char day = true ->
           modified it = day))
      items.
Proof.
  intros H200.
  destruct (browse_items _ _ _ _ _ _ H200)
    as (children & dsize & mtime & items & _ & _ & _ & Hlisted & Hitems).
  exists items. split; [exact Hlisted|].
  eapply Forall_impl; [|exact Hitems].
  intros it Hit. unfold describes in Hit.
  destruct (describe_spec _ _ _ _ _ _ Hit) as (_ & _ & Hkind).
  destruct Hkind as [(ch & ds & mt & Hfs & _ & _ & Hm)
                    |(content & mt & Hfs & _ & _ & Hm)];
    eexists; (split; [exact Hfs|]); rewrite Hm;
    (split; [apply date_of_free|]);
    cbn [Fs.stats_of Fs.mtime]; intros day time -> Hday;
    now apply date_of_day.
Qed.

(* ================================================================== *)
(** ** The further theorems at the sample deployment *)
(* ================================================================== *)

Lemma sample_disk_lists_file_names : lists_file_names Sample.disk.
Proof.
  intros p children dsize mtime H. unfold Sample.disk in H.
  repeat match type of H with
         | (if ?b then _ else _) = _ => destruct b
         end;
    try discriminate H; injection H as <- _ _; repeat constructor.
Qed.

Lemma sample_disks_agree :
  agree_under (Path.resolve Sample.cwd [MEDIA_ROOT Sample.env])
    Sample.disk other_disk.
Proof.
  intros p Hp. unfold other_disk.
  destruct (p =? "/etc/passwd")%string eqn:E; [|reflexivity].
  apply String.eqb_eq in E. subst p. discriminate Hp.
Qed.

Lemma request_without_dotdot_is_admitted_witness :
  access_denied Sample.env Sample.cwd
    (fullPath_of Sample.env "mix/./b.mp4") = false /\
  fullPath_of Sample.env "mix/./b.mp4" = "/media/mix/b.mp4".
Proof.
  destruct (request_without_dotdot_is_admitted Sample.env Sample.cwd
              "mix/./b.mp4") as (H1 & _ & H3).
  - reflexivity.
  - reflexivity.
  - exact (conj H1 H3).
Defined.

Lemma listed_path_leads_to_child_witness :
  Path.join ["/"; "mix"; "b.mp4"] = "/mix/b.mp4" /\
  fullPath_of Sample.env (JS.drop 1 (Path.join ["/"; "mix"; "b.mp4"]))
    = Path.join [fullPath_of Sample.env "mix"; "b.mp4"].
Proof.
  destruct (listed_path_leads_to_child Sample.env Sample.cwd "mix" "b.mp4")
    as (H1 & H2 & _).
  - reflexivity.
  - reflexivity.
  - reflexivity.
  - exact (conj H1 H2).
Defined.

Lemma listing_items_describe_children_witness :
  exists items,
    listed (Sample.browse "mix") = map item_json items /\
    Forall (fun it => type it = "folder" <-> size it = None) items.
Proof.
  destruct (listing_items_describe_children Sample.env Sample.cwd
              Sample.disk Sample.mime_lookup Sample.localeCompare "mix")
    as (items & H1 & H2).
  - reflexivity.
  - exists items. split; [exact H1|].
    eapply Forall_impl; [|exact H2].
    intros it (_ & _ & H & _). exact H.
Defined.

Lemma listed_items_can_be_requested_witness :
  exists items,
    listed (Sample.browse "mix") = map item_json items /\
    Forall (fun it =>
      type it <> "folder" ->
      exists content,
        delivered Sample.disk (Sample.stream (JS.drop 1 (path it)) None)
        = Some content) items.
Proof.
  destruct (listed_items_can_be_requested Sample.env Sample.cwd
              Sample.disk Sample.mime_lookup Sample.localeCompare "mix")
    as (items & H1 & H2).
  - reflexivity.
  - reflexivity.
  - exact sample_disk_lists_file_names.
  - reflexivity.
  - exists items. split; [exact H1|].
    eapply Forall_impl; [|exact H2].
    intros it (_ & H) Hn. destruct (H Hn) as (content & _ & _ & _ & Hd).
    now exists content.
Defined.

Lemma responses_depend_only_on_paths_with_root_prefix_witness :
  other_disk "/etc/passwd" <> Sample.disk "/etc/passwd" /\
  access_denied Sample.env Sample.cwd (fullPath_of Sample.env "mix")
    = false /\
  access_denied Sample.env Sample.cwd (fullPath_of Sample.env "x.mp4")
    = false /\
  status (Sample.browse "mix") = 200 /\
  browse Sample.env Sample.cwd other_disk Sample.mime_lookup
    Sample.localeCompare "mix"
  = Sample.browse "mix" /\
  status (Sample.stream "x.mp4" (Some "bytes=0-9")) = 206 /\
  stream Sample.env Sample.cwd other_disk Sample.mime_lookup
    "x.mp4" (Some "bytes=0-9")
  = Sample.stream "x.mp4" (Some "bytes=0-9") /\
  delivered other_disk
    (stream Sample.env Sample.cwd other_disk Sample.mime_lookup
       "x.mp4" (Some "bytes=0-9"))
  = delivered Sample.disk (Sample.stream "x.mp4" (Some "bytes=0-9")).
Proof.
  destruct (responses_depend_only_on_paths_with_root_prefix Sample.env
              Sample.cwd Sample.disk other_disk Sample.mime_lookup
              Sample.localeCompare "mix" None) as (H1 & _).
  - reflexivity.
  - exact sample_disk_lists_file_names.
  - exact sample_disks_agree.
  - destruct (responses_depend_only_on_paths_with_root_prefix Sample.env
                Sample.cwd Sample.disk other_disk Sample.mime_lookup
                Sample.localeCompare "x.mp4" (Some "bytes=0-9"))
      as (_ & H2 & H3).
    + reflexivity.
    + exact sample_disk_lists_file_names.
    + exact sample_disks_agree.
    + split; [discriminate|].
      exact (conj eq_refl (conj eq_refl (conj eq_refl
               (conj (eq_sym H1) (conj eq_refl
                  (conj (eq_sym H2) (eq_sym H3))))))).
Defined.

Lemma dangling_child_fails_listing_witness :
  status (browse Sample.env Sample.cwd dangling_disk Sample.mime_lookup
            Sample.localeCompare "") = 404.
Proof.
  rewrite (dangling_child_fails_listing Sample.env Sample.cwd dangling_disk
             Sample.mime_lookup Sample.localeCompare ""
             ["gone.mp4"] 4096 Sample.stamp).
  - reflexivity.
  - reflexivity.
  - reflexivity.
  - exists "gone.mp4". split; [now left | reflexivity].
  - intros c e [<-|[]] H. vm_compute in H. now injection H as <-.
Defined.

Lemma failed_lookup_statuses_witness :
  status (Sample.stream "nope.mp4" (Some "bytes=0-")) = 404 /\
  status (Sample.download "nope.mp4") = 404 /\
  status (Sample.browse "nope.mp4") = 404.
Proof.
  destruct (failed_lookup_statuses Sample.env Sample.cwd Sample.disk
              Sample.mime_lookup Sample.localeCompare
              Sample.contentDisposition Sample.dirname
              "nope.mp4" (Some "bytes=0-")
              Fs.ENOENT) as (H1 & _ & H3 & _).
  - reflexivity.
  - reflexivity.
  - destruct (failed_lookup_statuses Sample.env Sample.cwd Sample.disk
                Sample.mime_lookup Sample.localeCompare
                Sample.contentDisposition Sample.dirname
                "nope.mp4" None
                Fs.ENOENT) as (_ & H2 & _).
    + reflexivity.
    + reflexivity.
    + unfold Sample.stream, Sample.download, Sample.browse.
      rewrite H1, H2, (H3 eq_refl). repeat split.
Defined.

Lemma text_after_range_end_is_ignored_witness :
  Sample.stream "x.mp4" (Some "bytes=0-99,200-299")
  = Sample.stream "x.mp4" (Some "bytes=0-99").
Proof.
  apply (text_after_range_end_is_ignored Sample.env Sample.cwd Sample.disk
           Sample.mime_lookup "x.mp4" ",200-299" 0 99).
  - lia.
  - lia.
  - reflexivity.
Defined.

Lemma suffix_range_is_not_served_witness :
  status (Sample.stream "x.mp4" (Some "bytes=-500")) = 500.
Proof.
  destruct (suffix_range_is_not_served Sample.env Sample.cwd Sample.disk
              Sample.mime_lookup "x.mp4" "500"
              (Fs.File Sample.clip Sample.stamp)) as (_ & H).
  - reflexivity.
  - reflexivity.
  - unfold Sample.stream.
    change "bytes=-500" with ("bytes=-" ++ "500"). now rewrite H.
Defined.

Lemma range_end_past_file_end_witness :
  header "Content-Length" (Sample.stream "x.mp4" (Some "bytes=0-1999"))
    = Some "2000" /\
  delivered Sample.disk (Sample.stream "x.mp4" (Some "bytes=0-1999"))
    = Some Sample.clip.
Proof.
  destruct (range_end_past_file_end Sample.env Sample.cwd Sample.disk
              Sample.mime_lookup "x.mp4" Sample.clip Sample.stamp 0 1999)
    as (_ & _ & H3 & H4 & _).
  - reflexivity.
  - reflexivity.
  - vm_compute. split; [discriminate | reflexivity].
  - vm_compute. split; discriminate.
  - exact (conj H3 H4).
Defined.

Lemma formatFileSize_whole_units_witness :
  exists u, formatFileSize (1 * k ^ 3) = "1" ++ " " ++ u.
Proof.
  destruct (formatFileSize_whole_units 1 3) as (u & _ & H).
  - lia.
  - lia.
  - exists u. exact H.
Defined.

Lemma formatFileSize_prints_1024_witness :
  exists u,
    nth_error sizes 1 = Some u /\ formatFileSize 1048575 = "1024 " ++ u.
Proof.
  destruct (formatFileSize_prints_1024 1048575 1) as (u & H1 & H2).
  - lia.
  - vm_compute. discriminate.
  - reflexivity.
  - vm_compute. discriminate.
  - exists u. exact (conj H1 H2).
Defined.

Lemma formatFileSize_beyond_units_witness :
  exists n, formatFileSize (k ^ 5) = show_tenths n ++ " undefined".
Proof.
  destruct (formatFileSize_beyond_units (k ^ 5)) as (_ & _ & n & _ & H).
  - vm_compute. split; discriminate.
  - exists n. exact H.
Defined.

Lemma goBack_drops_last_segment_witness :
  Client.goBack (Client.mkState "/mix/A/" None) = Client.mkState "/mix" None.
Proof.
  destruct (goBack_drops_last_segment ["mix"; "A"] true None) as (H & _).
  - repeat constructor.
  - exact H.
Defined.

Lemma search_shows_items_containing_term_witness :
  lower "" = "" /\
  Client.filteredItems lower sample_items "" = sample_items /\
  In (mkItem "Holiday.MP4" "video" "/Holiday.MP4" (Some "1 GB")
        "2024-05-06")
    (Client.filteredItems lower sample_items "holiday.mp4").
Proof.
  destruct (search_shows_items_containing_term lower sample_items "")
    as (_ & _ & H3).
  destruct (search_shows_items_containing_term lower sample_items
              "holiday.mp4") as (_ & H2 & _).
  split; [reflexivity|]. split.
  - apply H3. reflexivity.
  - apply H2; [now left | reflexivity].
Defined.

Lemma back_undoes_entering_a_folder_witness :
  exists items,
    listed (Sample.browse "") = map item_json items /\
    Forall (fun it =>
      type it = "folder" ->
      Client.currentPath
        (Client.goBack
           (Client.handleItemClick (Client.mkState "/" None) it))
      = "/") items.
Proof.
  destruct (back_undoes_entering_a_folder Sample.env Sample.cwd Sample.disk
              Sample.mime_lookup Sample.localeCompare
              (Client.mkState "/" None) [])
    as (items & H1 & H2).
  - constructor.
  - reflexivity.
  - exact sample_disk_lists_file_names.
  - reflexivity.
  - exists items. split; [exact H1|].
    eapply Forall_impl; [|exact H2].
    intros it (H & _) Ht. exact (proj2 (H Ht)).
Defined.

Lemma admitted_paths_by_segment_witness :
  root_segments Sample.env = ["media"] /\
  (access_denied Sample.env Sample.cwd
     (fullPath_of Sample.env "../media-evil/secret.txt") = false <->
   exists seg rest t,
     fullPath_of Sample.env "../media-evil/secret.txt"
       = abs_path ([] ++ seg :: rest) t /\
     String.prefix "media" seg = true).
Proof.
  destruct (admitted_paths_by_segment Sample.env Sample.cwd
              "../media-evil/secret.txt" [] "media") as (H & _).
  - reflexivity.
  - split; [reflexivity|]. apply H. reflexivity.
Defined.

Lemma listing_dates_are_days_witness :
  exists items,
    listed (Sample.browse "mix") = map item_json items /\
    Forall (fun it => free_of "T"%char (modified it) = true) items.
Proof.
  destruct (listing_dates_are_days Sample.env Sample.cwd Sample.disk
              Sample.mime_lookup Sample.localeCompare "mix")
    as (items & H1 & H2).
  - reflexivity.
  - exists items. split; [exact H1|].
    eapply Forall_impl; [|exact H2].
    intros it (n & _ & H & _). exact H.
Defined.
